(** * WACMS: case lifecycle, SLA clock and audit ledger

  A shallow embedding of the backend of the Workflow Automation & Case
  Management System: [config/constants.js], [services/workflow.service.js],
  [services/audit.service.js] and the case routes ([routes/cases.routes.js]),
  with the properties of the lifecycle engine proved about it. *)

From Stdlib Require Import ZArith Lia Sorted.
From stdpp Require Import base option list strings gmap.

Local Open Scope Z_scope.

(** ** JavaScript values used by the code *)

Module Js.

(** [a === b] on strings. *)
Definition eqs (a b : string) : bool := String.eqb a b.

(** [o[k]] on an object literal used as a table, the entries in the order
    they are written.  Own properties only: [prop o k] is [o[k]] for every
    key [k] that is not one of the [inherited] names below.  The routes
    consult the tables with stored statuses and validated targets and
    priorities, none of which is such a name. *)
Fixpoint prop {A : Type} (o : list (string * A)) (k : string) : option A :=
  match o with
  | [] => None
  | (k', v) :: o' => if eqs k k' then Some v else prop o' k
  end.

(** The names every object literal inherits from [Object.prototype].  For
    one of these, [o[k]] is not [undefined] but the inherited member (a
    function, or the prototype itself), which [prop] does not follow: what
    the code does with such a key is outside this development, and the
    statements about every key assume the key is not one of them. *)
Definition inherited : list string :=
  [ "constructor"; "hasOwnProperty"; "isPrototypeOf"; "propertyIsEnumerable";
    "toLocaleString"; "toString"; "valueOf"; "__proto__";
    "__defineGetter__"; "__defineSetter__"; "__lookupGetter__";
    "__lookupSetter__" ].

(** [Object.keys(o)], [Object.values(o)] and [Object.entries(o)]. *)
Definition keys {A : Type} (o : list (string * A)) : list string := map fst o.
Definition values {A : Type} (o : list (string * A)) : list A := map snd o.
Definition entries {A : Type} (o : list (string * A)) : list (string * A) := o.

(** [arr.includes(x)] on an array of strings. *)
Definition includes (arr : list string) (x : string) : bool :=
  existsb (eqs x) arr.

(** [arr.join(sep)]. *)
Definition join (arr : list string) (sep : string) : string :=
  String.concat sep arr.

(** [s.startsWith(p)]. *)
Fixpoint startsWith (s p : string) {struct p} : bool :=
  match p with
  | EmptyString => true
  | String a p' =>
    match s with
    | EmptyString => false
    | String b s' => Ascii.eqb a b && startsWith s' p'
    end
  end.

(** [arr.push(x)]. *)
Definition push {A : Type} (arr : list A) (x : A) : list A := arr ++ [x].

(** A JSON document, as handed to [JSON.stringify]. *)
Inductive json : Type :=
  | JStr (s : string)
  | JObj (fields : list field)
with field : Type :=
  | Field (name : string) (value : json).

(** Properties whose value is [undefined] are left out by
    [JSON.stringify]. *)
Definition defined_fields (fs : list (string * option string))
  : list field :=
  omap (fun '(k, v) => match v with
                       | Some s => Some (Field k (JStr s))
                       | None => None
                       end) fs.

End Js.

(** ** config/constants.js *)

Module Constants.

Module ROLES.
Definition REQUESTER : string := "requester".
Definition ANALYST : string := "analyst".
Definition MANAGER : string := "manager".
Definition ADMIN : string := "admin".
End ROLES.

Module STATUS.
Definition CREATED : string := "Created".
Definition ASSIGNED : string := "Assigned".
Definition IN_PROGRESS : string := "In Progress".
Definition UNDER_REVIEW : string := "Under Review".
Definition CLOSED : string := "Closed".
(** [Object.values(STATUS)] *)
Definition all : list string :=
    [CREATED; ASSIGNED; IN_PROGRESS; UNDER_REVIEW; CLOSED].
End STATUS.

Module PRIORITY.
Definition LOW : string := "Low".
Definition MEDIUM : string := "Medium".
Definition HIGH : string := "High".
Definition CRITICAL : string := "Critical".
Definition all : list string := [LOW; MEDIUM; HIGH; CRITICAL].
End PRIORITY.

Module CATEGORY.
Definition all : list string :=
    ["IT"; "HR"; "Finance"; "Compliance"; "Other"].
End CATEGORY.

(** Allowed status transitions with role permissions:
    [{ [fromStatus]: { [toStatus]: [allowedRoles] } }]. *)
Definition TRANSITIONS : list (string * list (string * list string)) :=
  [ (STATUS.CREATED,
      [ (STATUS.ASSIGNED, [ROLES.MANAGER; ROLES.ADMIN]) ]);
    (STATUS.ASSIGNED,
      [ (STATUS.IN_PROGRESS, [ROLES.ANALYST]) ]);
    (STATUS.IN_PROGRESS,
      [ (STATUS.UNDER_REVIEW, [ROLES.ANALYST]) ]);
    (STATUS.UNDER_REVIEW,
      [ (STATUS.CLOSED, [ROLES.MANAGER; ROLES.ADMIN]);
        (STATUS.IN_PROGRESS, [ROLES.MANAGER; ROLES.ADMIN]) ]) ].

Module AUDIT_ACTIONS.
Definition CASE_CREATED : string := "CASE_CREATED".
Definition STATUS_CHANGED : string := "STATUS_CHANGED".
Definition CASE_ASSIGNED : string := "CASE_ASSIGNED".
Definition CASE_UPDATED : string := "CASE_UPDATED".
Definition COMMENT_ADDED : string := "COMMENT_ADDED".
End AUDIT_ACTIONS.

(** SLA defaults (in hours). *)
Definition SLA_DEFAULTS : list (string * Z) :=
  [ (PRIORITY.LOW, 72); (PRIORITY.MEDIUM, 48);
    (PRIORITY.HIGH, 24); (PRIORITY.CRITICAL, 4) ].

End Constants.

(** ** Rows of the relational store (migrations/run.js)

  [users.id] and [cases.id] are SERIAL keys, JavaScript numbers once read;
  a nullable column is an [option]; a TIMESTAMP is a count of milliseconds
  on the wall clock the server and the store share. *)

Module User.
Record row : Type := Row {
  id : Z;
  name : string;
  email : string;
  role : string
}.
End User.

Module Case.
Record row : Type := Row {
  id : Z;
  case_id : string;
  title : string;
  description : option string;
  category : string;
  priority : string;
  status : string;
  assigned_to : option Z;
  created_by : Z;
  sla_due_at : option Z;
  created_at : Z;
  updated_at : Z
}.
End Case.

Module Audit.
Record row : Type := Row {
  case_id : Z;
  action : string;
  previous_status : option string;
  new_status : option string;
  previous_assignee : option Z;
  new_assignee : option Z;
  performed_by : Z;
  details : Js.json;
  timestamp : Z
}.
End Audit.

(** ** services/workflow.service.js *)

Module WorkflowService.
Import Constants.

(** [{ valid: boolean, reason?: string }] *)
Record transition_check : Type := TransitionCheck {
  valid : bool;
  reason : option string
  }.

Definition canTransition (currentStatus targetStatus userRole : string)
  : transition_check :=
  match Js.prop TRANSITIONS currentStatus with
  | None =>
      {| valid := false;
         reason := Some ("No transitions available from status: "
                         +:+ currentStatus) |}
  | Some destinations =>
      match Js.prop destinations targetStatus with
      | None =>
          let validDestinations := Js.keys destinations in
          {| valid := false;
             reason := Some ("Cannot transition from '" +:+ currentStatus
                             +:+ "' to '" +:+ targetStatus
                             +:+ "'. Valid destinations: "
                             +:+ Js.join validDestinations ", ") |}
      | Some allowedRoles =>
          if negb (Js.includes allowedRoles userRole) then
            {| valid := false;
               reason := Some ("Role '" +:+ userRole
                               +:+ "' is not authorized for this transition. Required: "
                               +:+ Js.join allowedRoles " or ") |}
          else {| valid := true; reason := None |}
      end
  end.

(** The [for ... of Object.entries(...)] loop, pushing onto [available]. *)
Definition getAvailableTransitions (currentStatus userRole : string)
  : list string :=
  match Js.prop TRANSITIONS currentStatus with
  | None => []
  | Some destinations =>
      fold_left
        (fun available '(targetStatus, allowedRoles) =>
           if Js.includes allowedRoles userRole
           then Js.push available targetStatus
           else available)
        (Js.entries destinations) []
  end.

Definition getAllStatuses : list string := STATUS.all.

Definition canAssign (currentStatus : string) : bool :=
  Js.eqs currentStatus STATUS.CREATED.

(** [{ valid: boolean, errors?: string[] }] *)
Record requirements_check : Type := RequirementsCheck {
  req_valid : bool;
  errors : list string
  }.

(** [!caseData.assigned_to]: [null] and the number [0] are falsy. *)
Definition no_assignee (assignee : option Z) : bool :=
  match assignee with
  | None => true
  | Some n => n =? 0
  end.

Definition validateTransitionRequirements (caseData : Case.row)
    (targetStatus : string) : requirements_check :=
  let errors := [] in
  let errors :=
    if Js.eqs targetStatus STATUS.ASSIGNED
       && no_assignee (Case.assigned_to caseData)
    then Js.push errors
           "Case must have an assignee before setting status to Assigned"
    else errors in
  let errors :=
    if Js.eqs targetStatus STATUS.CLOSED
       && negb (Js.eqs (Case.status caseData) STATUS.UNDER_REVIEW)
    then Js.push errors "Case must be Under Review before closing"
    else errors in
  {| req_valid := Nat.eqb (length errors) 0; errors := errors |}.

End WorkflowService.

(** ** The SLA clock *)

Module Date.

Definition ms_per_hour : Z := 3600000.

(** [d.getHours()]: the hour field of the wall-clock time [d]. *)
Definition getHours (d : Z) : Z := (d / ms_per_hour) mod 24.

(** [d.setHours(h)]: the hour field replaced by [h], minutes, seconds and
    milliseconds kept; an [h] outside 0..23 carries into the date. *)
Definition setHours (d : Z) (h : Z) : Z := d + (h - getHours d) * ms_per_hour.

End Date.

Module Sla.
Import Constants.

(** [v || d] on a table entry: [undefined] and [0] are falsy. *)
Definition or_default (v : option Z) (d : Z) : Z :=
  match v with
  | Some n => if n =? 0 then d else n
  | None => d
  end.

(** [ts < bound] in a SQL [WHEN]: a NULL operand does not select the branch. *)
Definition sql_lt (ts : option Z) (bound : Z) : bool :=
  match ts with
  | Some t => t <? bound
  | None => false
  end.

Definition hours (n : Z) : Z := n * Date.ms_per_hour.

(** The [CASE ... END as sla_status] column of [GET /api/cases], [now] the
    value of [NOW()]. *)
Definition sla_status (now : Z) (c : Case.row) : string :=
  if Js.eqs (Case.status c) "Closed" then "closed"
  else if sql_lt (Case.sla_due_at c) now then "overdue"
  else if Js.eqs (Case.priority c) "Critical"
          && sql_lt (Case.sla_due_at c) (now + hours 1) then "at_risk"
  else if Js.eqs (Case.priority c) "High"
          && sql_lt (Case.sla_due_at c) (now + hours 2) then "at_risk"
  else if Js.eqs (Case.priority c) "Medium"
          && sql_lt (Case.sla_due_at c) (now + hours 6) then "at_risk"
  else if Js.eqs (Case.priority c) "Low"
          && sql_lt (Case.sla_due_at c) (now + hours 12) then "at_risk"
  else "on_track".

(** The [sla_status] column of [GET /api/dashboard/sla-breaches]: the
    [CASE] expression alone.  The route computes it for the rows its
    [WHERE] clause lets through ([Dashboard.listed] below): cases that are
    not Closed and are past due or due within 24 hours. *)
Definition breach_status (now : Z) (c : Case.row) : string :=
  if sql_lt (Case.sla_due_at c) now then "breached"
  else if sql_lt (Case.sla_due_at c) (now + hours 4) then "at_risk"
  else "on_track".

End Sla.

(** ** The store and the requests that run against it (config/db.js) *)

Record database : Type := Database {
  users : gmap Z User.row;
  cases : gmap Z Case.row;
  case_audit_log : list Audit.row
}.

(** What a request cannot choose: which of its statements the store rejects
    ([faulty n]: the [n]-th [db.query] of the request throws), what [NOW()]
    is in each statement, and what [new Date()] returns. *)
Record env : Type := Env {
  faulty : nat -> bool;
  sql_now : nat -> Z;
  js_now : Z
}.

(** The body of a response. *)
Inductive payload : Type :=
| ValidationErrors
| ErrorMessage (error : string)
| AccessDenied (message : string)
| InvalidTransition (reason : option string)
| RequirementsNotMet (errors : list string)
| CaseResult (message : string) (case : option Case.row).

(** How a handler ends: [res.status(code).json(body)], or [next(error)]
    with the error a rejected query threw. *)
Inductive outcome : Type :=
| Sent (code : Z) (body : payload)
| Next.

Inductive step (A : Type) : Type :=
| Continue (a : A)
| Finish (o : outcome).
Arguments Continue {A} a.
Arguments Finish {A} o.

(** A handler reads the environment and threads the store and the number of
    statements issued so far.  [pool.query] runs every statement on its own:
    what a statement wrote stays written when a later one throws. *)
Definition handler (A : Type) : Type :=
  env -> database * nat -> step A * (database * nat).

#[global] Instance handler_ret : MRet handler :=
  fun A (a : A) _ s => (Continue a, s).

(** [await]: a handler that has finished runs nothing more. *)
#[global] Instance handler_bind : MBind handler :=
  fun A B (k : A -> handler B) (h : handler A) e s =>
    match h e s with
    | (Continue a, s') => k a e s'
    | (Finish o, s') => (Finish o, s')
    end.

(** [return res.status(code).json(body)] *)
Definition send {A : Type} (code : Z) (body : payload) : handler A :=
  fun _ s => (Finish (Sent code body), s).

(** [new Date()] *)
Definition newDate : handler Z :=
  fun e s => (Continue (js_now e), s).

(** [await db.query(...)]: the statement, given its [NOW()], returns rows
    and a new store; a rejected statement changes nothing and throws. *)
Definition query {A : Type} (stmt : Z -> database -> A * database) : handler A :=
  fun e '(db, n) =>
    if faulty e n then (Finish Next, (db, S n))
    else let '(rows, db') := stmt (sql_now e n) db in
         (Continue rows, (db', S n)).

(** A request, run from its first statement. *)
Definition run (h : handler outcome) (e : env) (db : database)
  : outcome * database :=
  match h e (db, 0%nat) with
  | (Continue o, (db', _)) => (o, db')
  | (Finish o, (db', _)) => (o, db')
  end.

(** *** The statements the case routes issue *)

Module Sql.

(** [SELECT * FROM cases WHERE id = $1]: at most one row, [id] a key. *)
Definition select_case (id : Z) : Z -> database -> option Case.row * database :=
  fun _ db => (cases db !! id, db).

(** [SELECT id, name, role FROM users WHERE id = $1] *)
Definition select_user (id : Z) : Z -> database -> option User.row * database :=
  fun _ db => (users db !! id, db).

(** One [column = value] of an [UPDATE cases SET ...]. *)
Inductive assignment : Type :=
| title_eq (v : string)
| description_eq (v : string)
| category_eq (v : string)
| priority_eq (v : string)
| sla_due_at_eq (v : Z)
| assigned_to_eq (v : Z)
| status_eq (v : string)
| updated_at_now.

Definition assign (now : Z) (c : Case.row) (a : assignment) : Case.row :=
  match c, a with
  | Case.Row i ci t d cat p s asg cb sla ca ua, title_eq v =>
      Case.Row i ci v d cat p s asg cb sla ca ua
  | Case.Row i ci t d cat p s asg cb sla ca ua, description_eq v =>
      Case.Row i ci t (Some v) cat p s asg cb sla ca ua
  | Case.Row i ci t d cat p s asg cb sla ca ua, category_eq v =>
      Case.Row i ci t d v p s asg cb sla ca ua
  | Case.Row i ci t d cat p s asg cb sla ca ua, priority_eq v =>
      Case.Row i ci t d cat v s asg cb sla ca ua
  | Case.Row i ci t d cat p s asg cb sla ca ua, sla_due_at_eq v =>
      Case.Row i ci t d cat p s asg cb (Some v) ca ua
  | Case.Row i ci t d cat p s asg cb sla ca ua, assigned_to_eq v =>
      Case.Row i ci t d cat p s (Some v) cb sla ca ua
  | Case.Row i ci t d cat p s asg cb sla ca ua, status_eq v =>
      Case.Row i ci t d cat p v asg cb sla ca ua
  | Case.Row i ci t d cat p s asg cb sla ca ua, updated_at_now =>
      Case.Row i ci t d cat p s asg cb sla ca now
  end.

(** [UPDATE cases SET updates WHERE id = $n RETURNING *] *)
Definition update_case (updates : list assignment) (id : Z)
  : Z -> database -> option Case.row * database :=
  fun now db =>
    let cases' := alter (fun c => fold_left (assign now) updates c) id (cases db) in
    (cases' !! id,
     {| users := users db; cases := cases';
        case_audit_log := case_audit_log db |}).

(** [INSERT INTO case_audit_log (...) VALUES (...) RETURNING *], the
    timestamp column [DEFAULT NOW()]. *)
Definition insert_audit (caseId : Z) (action : string)
    (previousStatus newStatus : option string)
    (previousAssignee newAssignee : option Z) (performedBy : Z)
    (details : Js.json) : Z -> database -> Audit.row * database :=
  fun now db =>
    let entry :=
      {| Audit.case_id := caseId; Audit.action := action;
         Audit.previous_status := previousStatus;
         Audit.new_status := newStatus;
         Audit.previous_assignee := previousAssignee;
         Audit.new_assignee := newAssignee;
         Audit.performed_by := performedBy;
         Audit.details := details; Audit.timestamp := now |} in
    (entry,
     {| users := users db; cases := cases db;
        case_audit_log := case_audit_log db ++ [entry] |}).

End Sql.

(** ** services/audit.service.js *)

Module AuditService.
Import Constants.

(** Core logging function. *)
Definition log (caseId : Z) (action : string)
    (previousStatus newStatus : option string)
    (previousAssignee newAssignee : option Z) (performedBy : Z)
    (details : Js.json) : handler Audit.row :=
  query (Sql.insert_audit caseId action previousStatus newStatus
           previousAssignee newAssignee performedBy details).

Definition logStatusChange (caseId : Z) (previousStatus newStatus : string)
    (performedBy : Z) (details : Js.json) : handler Audit.row :=
  log caseId AUDIT_ACTIONS.STATUS_CHANGED (Some previousStatus)
      (Some newStatus) None None performedBy details.

(** [previousAssignee] is the column as read, [null] included. *)
Definition logAssignment (caseId : Z) (previousAssignee : option Z)
    (newAssignee : Z) (performedBy : Z) (details : Js.json)
  : handler Audit.row :=
  log caseId AUDIT_ACTIONS.CASE_ASSIGNED None None previousAssignee
      (Some newAssignee) performedBy details.

Definition logCaseUpdate (caseId : Z) (performedBy : Z) (details : Js.json)
  : handler Audit.row :=
  log caseId AUDIT_ACTIONS.CASE_UPDATED None None None None performedBy
      details.

End AuditService.

(** ** middleware/rbac.js *)

Module Rbac.
Import Constants.

(** [req.user] is the row [authenticate] attached. *)
Definition requireRole (allowedRoles : list string) (user : User.row)
  : handler unit :=
  if negb (Js.includes allowedRoles (User.role user)) then
    send 403 (AccessDenied ("Required role: " +:+ Js.join allowedRoles " or "
                            +:+ ". Your role: " +:+ User.role user))
  else mret tt.

Definition requireManager : User.row -> handler unit :=
  requireRole [ROLES.MANAGER; ROLES.ADMIN].

End Rbac.

(** ** routes/cases.routes.js

    A handler takes the user [authenticate] attached to the request, the
    route parameter [id] after [isInt().toInt()], and the fields of the body
    it reads. *)

Module CasesRoutes.
Import Constants.

(** Calculate SLA due date based on priority. *)
Definition calculateSlaDueDate (priority : string) : handler Z :=
  let hours := Sla.or_default (Js.prop SLA_DEFAULTS priority) 48 in
  dueDate ← newDate;
  mret (Date.setHours dueDate (Date.getHours dueDate + hours)).

(** The body of [PUT /api/cases/:id] after the sanitizers ran; [None] is a
    field the request leaves [undefined]. *)
Record update_body : Type := UpdateBody {
  title : option string;
  description : option string;
  category : option string;
  priority : option string
}.

(** [optional()] followed by a check. *)
Definition optional (check : string -> bool) (v : option string) : bool :=
  match v with
  | Some s => check s
  | None => true
  end.

(** The validators of the route, on the body as the sanitizers left it.
    The title is measured by the length of its string, which is its number
    of characters when the title is of ASCII characters; the validator
    counts characters, so a title with other characters can be refused here
    and pass there. *)
Definition valid_update (body : update_body) : bool :=
  optional (fun t => negb (Js.eqs t "") && (String.length t <=? 255)%nat)
           (title body)
  && optional (Js.includes CATEGORY.all) (category body)
  && optional (Js.includes PRIORITY.all) (priority body).

(** [caseData.assigned_to === req.user.id] *)
Definition is_user (assignee : option Z) (user : Z) : bool :=
  match assignee with
  | Some a => a =? user
  | None => false
  end.

(** [PUT /api/cases/:id]: update case details. *)
Definition put_case (user : User.row) (id : Z) (body : update_body)
  : handler outcome :=
  if negb (valid_update body) then send 400 ValidationErrors else
  current ← query (Sql.select_case id);
  match current with
  | None => send 404 (ErrorMessage "Case not found")
  | Some caseData =>
    let canEdit :=
      (Case.created_by caseData =? User.id user)
      || is_user (Case.assigned_to caseData) (User.id user)
      || Js.includes [ROLES.MANAGER; ROLES.ADMIN] (User.role user) in
    if negb canEdit then
      send 403 (ErrorMessage "You do not have permission to edit this case")
    else
    let updates := [] in
    let updates :=
      match title body with
      | Some v => Js.push updates (Sql.title_eq v)
      | None => updates
      end in
    let updates :=
      match description body with
      | Some v => Js.push updates (Sql.description_eq v)
      | None => updates
      end in
    let updates :=
      match category body with
      | Some v => Js.push updates (Sql.category_eq v)
      | None => updates
      end in
    updates ←
      match priority body with
      | Some v =>
          let updates := Js.push updates (Sql.priority_eq v) in
          (* Recalculate SLA if priority changes *)
          due ← calculateSlaDueDate v;
          mret (Js.push updates (Sql.sla_due_at_eq due))
      | None => mret updates
      end;
    if (length updates =? 0)%nat then
      send 400 (ErrorMessage "No fields to update")
    else
    let updates := Js.push updates Sql.updated_at_now in
    result ← query (Sql.update_case updates id);
    AuditService.logCaseUpdate id (User.id user)
      (Js.JObj [Js.Field "changes"
                  (Js.JObj (Js.defined_fields
                              [("title", title body);
                               ("description", description body);
                               ("category", category body);
                               ("priority", priority body)]))]);;
    send 200 (CaseResult "Case updated successfully" result)
  end.

(** [PUT /api/cases/:id/status]: transition case status. *)
Definition put_status (user : User.row) (id : Z) (status : option string)
  : handler outcome :=
  match status with
  | None => send 400 ValidationErrors
  | Some targetStatus =>
    if negb (Js.includes STATUS.all targetStatus) then
      send 400 ValidationErrors
    else
    current ← query (Sql.select_case id);
    match current with
    | None => send 404 (ErrorMessage "Case not found")
    | Some caseData =>
      let previousStatus := Case.status caseData in
      let transitionCheck :=
        WorkflowService.canTransition previousStatus targetStatus
          (User.role user) in
      if negb (WorkflowService.valid transitionCheck) then
        send 403 (InvalidTransition (WorkflowService.reason transitionCheck))
      else
      let requirementsCheck :=
        WorkflowService.validateTransitionRequirements caseData targetStatus in
      if negb (WorkflowService.req_valid requirementsCheck) then
        send 400 (RequirementsNotMet (WorkflowService.errors requirementsCheck))
      else
      result ← query (Sql.update_case
                        [Sql.status_eq targetStatus; Sql.updated_at_now] id);
      AuditService.logStatusChange id previousStatus targetStatus
        (User.id user) (Js.JObj []);;
      send 200 (CaseResult ("Case transitioned from '" +:+ previousStatus
                            +:+ "' to '" +:+ targetStatus +:+ "'") result)
    end
  end.

(** [PUT /api/cases/:id/assign]: assign case to an analyst. *)
Definition put_assign (user : User.row) (id : Z) (assigneeId : option Z)
  : handler outcome :=
  Rbac.requireManager user;;
  match assigneeId with
  | None => send 400 ValidationErrors
  | Some assigneeId =>
    current ← query (Sql.select_case id);
    match current with
    | None => send 404 (ErrorMessage "Case not found")
    | Some caseData =>
      assignee ← query (Sql.select_user assigneeId);
      match assignee with
      | None => send 404 (ErrorMessage "Assignee not found")
      | Some assignee =>
        if negb (Js.eqs (User.role assignee) ROLES.ANALYST) then
          send 400 (ErrorMessage "Can only assign cases to analysts")
        else
        let previousAssignee := Case.assigned_to caseData in
        let newStatus := Case.status caseData in
        (* Auto-transition to Assigned if case is in Created status *)
        let newStatus :=
          if Js.eqs (Case.status caseData) STATUS.CREATED
          then STATUS.ASSIGNED else newStatus in
        result ← query (Sql.update_case
                          [Sql.assigned_to_eq assigneeId;
                           Sql.status_eq newStatus; Sql.updated_at_now] id);
        AuditService.logAssignment id previousAssignee assigneeId
          (User.id user)
          (Js.JObj [Js.Field "assigneeName" (Js.JStr (User.name assignee))]);;
        (if negb (Js.eqs newStatus (Case.status caseData)) then
           AuditService.logStatusChange id (Case.status caseData) newStatus
             (User.id user)
             (Js.JObj [Js.Field "reason"
                         (Js.JStr "Auto-transitioned on assignment")]);;
           mret tt
         else mret tt);;
        send 200 (CaseResult ("Case assigned to " +:+ User.name assignee)
                    result)
      end
    end
  end.

End CasesRoutes.

(** ** The tables of the specification

    What the lifecycle is specified to be, stated apart from the code so
    that the code can be compared with it. *)

Module Spec.

(** The declared edges with their authorized roles, in declaration order. *)
Definition edges : list (string * string * list string) :=
  [ ("Created", "Assigned", ["manager"; "admin"]);
    ("Assigned", "In Progress", ["analyst"]);
    ("In Progress", "Under Review", ["analyst"]);
    ("Under Review", "Closed", ["manager"; "admin"]);
    ("Under Review", "In Progress", ["manager"; "admin"]) ].

Definition source (e : string * string * list string) : string := e.1.1.
Definition target (e : string * string * list string) : string := e.1.2.
Definition roles (e : string * string * list string) : list string := e.2.

(** The declared edges out of [from]. *)
Definition edges_from (from : string) : list (string * string * list string) :=
  List.filter (fun e => Js.eqs (source e) from) edges.

(** The valid destinations from [from]. *)
Definition destinations (from : string) : list string :=
  map target (edges_from from).

(** The three reasons a transition is denied for. *)
Inductive denial : Type :=
| UnknownSource
| InvalidEdge
| UnauthorizedRole.

(** How a caller tells the reasons apart: by the way the message opens. *)
Definition kind_of_reason (message : string) : option denial :=
  if Js.startsWith message "No transitions available from status: "
  then Some UnknownSource
  else if Js.startsWith message "Cannot transition from '"
  then Some InvalidEdge
  else if Js.startsWith message "Role '"
  then Some UnauthorizedRole
  else None.

(** A check that denies with [message], recognised as of kind [k]. *)
Definition denied (k : denial) (message : string)
    (r : WorkflowService.transition_check) : Prop :=
  r = {| WorkflowService.valid := false;
         WorkflowService.reason := Some message |}
  /\ kind_of_reason message = Some k.

Definition allowed (r : WorkflowService.transition_check) : Prop :=
  r = {| WorkflowService.valid := true; WorkflowService.reason := None |}.

(** SLA hours by priority, 48 for a priority outside the table. *)
Definition sla_hours (priority : string) : Z :=
  if Js.eqs priority "Low" then 72
  else if Js.eqs priority "Medium" then 48
  else if Js.eqs priority "High" then 24
  else if Js.eqs priority "Critical" then 4
  else 48.

(** The risk window by priority, in hours. *)
Definition risk_window (priority : string) : option Z :=
  if Js.eqs priority "Critical" then Some 1
  else if Js.eqs priority "High" then Some 2
  else if Js.eqs priority "Medium" then Some 6
  else if Js.eqs priority "Low" then Some 12
  else None.

(** A reference the store can hold: SERIAL keys start at 1. *)
Definition user_key (k : Z) : Prop := 0 < k.

(** The assignee of a case is null or the key of a user. *)
Definition assignee_is_reference (c : Case.row) : Prop :=
  match Case.assigned_to c with
  | Some k => user_key k
  | None => True
  end.

(** The request got its success response. *)
Definition succeeded (o : outcome) : bool :=
  match o with
  | Sent 200 _ => true
  | _ => false
  end.

(** The audit entries the case routes are to leave behind. *)
Definition status_entry (id : Z) (previous target : string) (by_user : Z)
    (now : Z) : Audit.row :=
  Audit.Row id "STATUS_CHANGED" (Some previous) (Some target) None None
    by_user (Js.JObj []) now.

Definition assignment_entry (id : Z) (previous : option Z) (assignee : Z)
    (assignee_name : string) (by_user : Z) (now : Z) : Audit.row :=
  Audit.Row id "CASE_ASSIGNED" None None previous (Some assignee) by_user
    (Js.JObj [Js.Field "assigneeName" (Js.JStr assignee_name)]) now.

Definition auto_transition_entry (id : Z) (by_user : Z) (now : Z)
  : Audit.row :=
  Audit.Row id "STATUS_CHANGED" (Some "Created") (Some "Assigned") None None
    by_user
    (Js.JObj [Js.Field "reason" (Js.JStr "Auto-transitioned on assignment")])
    now.




End Spec.

(** ** A small store to run the requests on *)

Module Example.

Definition manager : User.row :=
  {| User.id := 2; User.name := "Mia"; User.email := "mia@example.org";
     User.role := "manager" |}.

Definition analyst : User.row :=
  {| User.id := 3; User.name := "Ann"; User.email := "ann@example.org";
     User.role := "analyst" |}.

Definition second_analyst : User.row :=
  {| User.id := 4; User.name := "Ben"; User.email := "ben@example.org";
     User.role := "analyst" |}.

(** A case nobody is assigned to yet, due 24 hours after its creation. *)
Definition new_case : Case.row :=
  {| Case.id := 1; Case.case_id := "CASE-01000";
     Case.title := "Printer offline"; Case.description := None;
     Case.category := "IT"; Case.priority := "High";
     Case.status := "Created"; Case.assigned_to := None;
     Case.created_by := 7; Case.sla_due_at := Some 86400000;
     Case.created_at := 0; Case.updated_at := 0 |}.

(** A case under review, due 30 minutes after the first hour. *)
Definition review_case : Case.row :=
  {| Case.id := 2; Case.case_id := "CASE-01001";
     Case.title := "Payroll mismatch"; Case.description := Some "March run";
     Case.category := "Finance"; Case.priority := "Critical";
     Case.status := "Under Review"; Case.assigned_to := Some 3;
     Case.created_by := 7; Case.sla_due_at := Some 5400000;
     Case.created_at := 0; Case.updated_at := 1000 |}.

Definition store : database :=
  {| users := <[2 := manager]> (<[3 := analyst]> (<[4 := second_analyst]> ∅));
     cases := <[1 := new_case]> (<[2 := review_case]> ∅);
     case_audit_log := [] |}.

(** Two hours in; every statement goes through. *)
Definition healthy : env :=
  {| faulty := fun _ => false;
     sql_now := fun n => 7200000 + Z.of_nat n;
     js_now := 7200000 |}.


(** A request that sets the priority to what it already is. *)
Definition same_priority : CasesRoutes.update_body :=
  {| CasesRoutes.title := None; CasesRoutes.description := None;
     CasesRoutes.category := None; CasesRoutes.priority := Some "High" |}.

End Example.

(** ** The rows the case routes write

    The three [UPDATE cases] statements, column by column. *)

Module Written.

(** [PUT /api/cases/:id/status]. *)
Definition transitioned (target : string) (now : Z) (c : Case.row) : Case.row :=
  {| Case.id := Case.id c; Case.case_id := Case.case_id c;
     Case.title := Case.title c; Case.description := Case.description c;
     Case.category := Case.category c; Case.priority := Case.priority c;
     Case.status := target; Case.assigned_to := Case.assigned_to c;
     Case.created_by := Case.created_by c;
     Case.sla_due_at := Case.sla_due_at c;
     Case.created_at := Case.created_at c; Case.updated_at := now |}.

(** [PUT /api/cases/:id/assign]. *)
Definition assigned (assignee : Z) (now : Z) (c : Case.row) : Case.row :=
  {| Case.id := Case.id c; Case.case_id := Case.case_id c;
     Case.title := Case.title c; Case.description := Case.description c;
     Case.category := Case.category c; Case.priority := Case.priority c;
     Case.status := if Js.eqs (Case.status c) "Created" then "Assigned"
                    else Case.status c;
     Case.assigned_to := Some assignee;
     Case.created_by := Case.created_by c;
     Case.sla_due_at := Case.sla_due_at c;
     Case.created_at := Case.created_at c; Case.updated_at := now |}.

(** [PUT /api/cases/:id], the request made at [request_time]. *)
Definition edited (body : CasesRoutes.update_body) (request_time now : Z)
    (c : Case.row) : Case.row :=
  {| Case.id := Case.id c; Case.case_id := Case.case_id c;
     Case.title := default (Case.title c) (CasesRoutes.title body);
     Case.description :=
       match CasesRoutes.description body with
       | Some v => Some v
       | None => Case.description c
       end;
     Case.category := default (Case.category c) (CasesRoutes.category body);
     Case.priority := default (Case.priority c) (CasesRoutes.priority body);
     Case.status := Case.status c; Case.assigned_to := Case.assigned_to c;
     Case.created_by := Case.created_by c;
     Case.sla_due_at :=
       match CasesRoutes.priority body with
       | Some p =>
           Some (request_time + Spec.sla_hours p * Date.ms_per_hour)
       | None => Case.sla_due_at c
       end;
     Case.created_at := Case.created_at c; Case.updated_at := now |}.

(** The audit entry of an update. *)
Definition update_entry (id : Z) (body : CasesRoutes.update_body)
    (by_user : Z) (now : Z) : Audit.row :=
  Audit.Row id "CASE_UPDATED" None None None None by_user
    (Js.JObj [Js.Field "changes"
                (Js.JObj (Js.defined_fields
                            [("title", CasesRoutes.title body);
                             ("description", CasesRoutes.description body);
                             ("category", CasesRoutes.category body);
                             ("priority", CasesRoutes.priority body)]))])
    now.

(** Who may edit a case: its creator, its assignee, a manager, an admin. *)
Definition may_edit (user : User.row) (c : Case.row) : bool :=
  (Case.created_by c =? User.id user)
  || CasesRoutes.is_user (Case.assigned_to c) (User.id user)
  || Js.includes ["manager"; "admin"] (User.role user).

(** [v !== undefined] *)
Definition given (v : option string) : bool :=
  match v with
  | Some _ => true
  | None => false
  end.

(** The update names at least one field. *)
Definition names_a_field (body : CasesRoutes.update_body) : bool :=
  given (CasesRoutes.title body) || given (CasesRoutes.description body)
  || given (CasesRoutes.category body) || given (CasesRoutes.priority body).

(** A string of ASCII characters: it has as many characters as bytes. *)
Fixpoint ascii_only (s : string) : bool :=
  match s with
  | EmptyString => true
  | String a s' => Nat.ltb (Ascii.nat_of_ascii a) 128 && ascii_only s'
  end.

(** The title of the request, if it names one, is of ASCII characters.  On
    such a title the [isLength] of the validator, which counts characters,
    and the [String.length] of [CasesRoutes.valid_update], which counts
    bytes, agree; a longer count of bytes than of characters makes
    [valid_update] refuse titles the validator lets through. *)
Definition plain_title (body : CasesRoutes.update_body) : Prop :=
  forall t : string, CasesRoutes.title body = Some t -> ascii_only t = true.

End Written.

(** ** What the store is expected to satisfy between requests *)

Module Invariant.

(** Every case is in one of the five statuses. *)
Definition statuses_known (db : database) : Prop :=
  forall (j : Z) (c : Case.row),
    cases db !! j = Some c -> Case.status c ∈ Constants.STATUS.all.

(** A case that has left Created has an assignee. *)
Definition started_cases_assigned (db : database) : Prop :=
  forall (j : Z) (c : Case.row),
    cases db !! j = Some c -> Case.status c <> "Created" ->
    is_Some (Case.assigned_to c).

(** [after] keeps the cases other than [id], the set of cases, and the
    users of [before]. *)
Definition touches_only (id : Z) (before after : database) : Prop :=
  users after = users before
  /\ dom (cases after) = dom (cases before)
  /\ forall j : Z, j <> id -> cases after !! j = cases before !! j.

(** The audit log of [after] is that of [before] followed by at most [n]
    entries, each about case [id] and performed by [by_user]. *)
Definition appends_at_most (n : nat) (id by_user : Z)
    (before after : database) : Prop :=
  exists entries : list Audit.row,
    case_audit_log after = case_audit_log before ++ entries
    /\ (length entries <= n)%nat
    /\ Forall (fun a => Audit.case_id a = id /\ Audit.performed_by a = by_user)
         entries.

End Invariant.

(** ** More rows to run the code on *)

Module MoreExamples.

(** A case that was stored without a due time. *)
Definition undated_case : Case.row :=
  {| Case.id := 3; Case.case_id := "CASE-01002";
     Case.title := "Badge reader"; Case.description := None;
     Case.category := "Other"; Case.priority := "Low";
     Case.status := "Assigned"; Case.assigned_to := Some 3;
     Case.created_by := 7; Case.sla_due_at := None;
     Case.created_at := 0; Case.updated_at := 0 |}.

(** A request that gives a case another title. *)
Definition retitled : CasesRoutes.update_body :=
  {| CasesRoutes.title := Some "Payroll export fails";
     CasesRoutes.description := None; CasesRoutes.category := None;
     CasesRoutes.priority := None |}.

End MoreExamples.

(** ** routes/dashboard.routes.js, the breach list *)

Module Dashboard.

(** [WHERE c.status NOT IN ('Closed') AND (c.sla_due_at < NOW() OR
     c.sla_due_at < NOW() + INTERVAL '24 hours')]: the cases
    [GET /api/dashboard/sla-breaches] returns.  A comparison with a missing
    due time is not true, so a case without one is not returned. *)
Definition listed (now : Z) (c : Case.row) : bool :=
  negb (Js.eqs (Case.status c) "Closed")
  && (Sla.sql_lt (Case.sla_due_at c) now
      || Sla.sql_lt (Case.sla_due_at c) (now + Sla.hours 24)).

(** The [sla_status] of a case in the answer of the route, [None] for a
    case the route does not return. *)
Definition sla_breaches_status (now : Z) (c : Case.row) : option string :=
  if listed now c then Some (Sla.breach_status now c) else None.

End Dashboard.

(** ** middleware/rbac.js, the other gates *)

Module Gates.
Import Constants.

(** Admin only access. *)
Definition requireAdmin : User.row -> handler unit :=
  Rbac.requireRole [ROLES.ADMIN].

(** Analyst, Manager or Admin access. *)
Definition requireAnalyst : User.row -> handler unit :=
  Rbac.requireRole [ROLES.ANALYST; ROLES.MANAGER; ROLES.ADMIN].

End Gates.

(** ** middleware/errorHandler.js *)

Module ErrorHandler.

(** What the handler reads of the error it is given: [err.name],
    [err.message], [err.details], [err.statusCode] and [err.code], a field
    the error does not have being [None]. *)
Record error : Type := Error {
  name : string;
  message : string;
  details : option string;
  statusCode : option Z;
  code : option string
}.

(** The JSON body of the answer: [{ error, details? }]. *)
Record body : Type := Body {
  error_text : string;
  error_details : option string
}.

(** [err.details || err.message]: a missing or empty [details] is falsy. *)
Definition details_or_message (err : error) : string :=
  match details err with
  | Some d => if Js.eqs d "" then message err else d
  | None => message err
  end.

(** [if (err.statusCode)]: a missing or zero code is falsy. *)
Definition own_status (err : error) : option Z :=
  match statusCode err with
  | Some n => if n =? 0 then None else Some n
  | None => None
  end.

Definition has_code (err : error) (c : string) : bool :=
  match code err with
  | Some c' => Js.eqs c' c
  | None => false
  end.

(** [errorHandler(err, req, res, next)], [production] telling whether
    [NODE_ENV] is ['production']: the status and the body it answers. *)
Definition errorHandler (production : bool) (err : error) : Z * body :=
  if Js.eqs (name err) "ValidationError" then
    (400, {| error_text := "Validation Error";
             error_details := Some (details_or_message err) |})
  else if Js.eqs (name err) "JsonWebTokenError" then
    (401, {| error_text := "Invalid token"; error_details := None |})
  else if Js.eqs (name err) "TokenExpiredError" then
    (401, {| error_text := "Token expired"; error_details := None |})
  else match own_status err with
  | Some status =>
      (status, {| error_text := message err; error_details := None |})
  | None =>
      if has_code err "23505" then
        (409, {| error_text := "Resource already exists";
                 error_details := None |})
      else if has_code err "23503" then
        (400, {| error_text := "Referenced resource not found";
                 error_details := None |})
      else
        (500, {| error_text := if production then "Internal server error"
                               else message err;
                 error_details := None |})
  end.

End ErrorHandler.

(** ** Reading the store *)

Module Query.

(** [ORDER BY]: the rows sorted so that [before x y] holds of any row [x]
    and a row [y] that follows it.  Rows the order does not tell apart stay
    as they were found; SQL promises nothing about them. *)
Fixpoint insert_by {A : Type} (before : A -> A -> bool) (x : A) (l : list A)
  : list A :=
  match l with
  | [] => [x]
  | y :: l' => if before x y then x :: y :: l' else y :: insert_by before x l'
  end.

Definition order_by {A : Type} (before : A -> A -> bool) (l : list A)
  : list A :=
  foldr (insert_by before) [] l.

(** The rows of the [cases] table. *)
Definition case_rows (db : database) : list Case.row :=
  (map_to_list (cases db)).*2.

(** A request that reads, run from its first statement: what it answers
    with ([Continue x] for [res.json(x)]) and the store it leaves. *)
Definition answer {A : Type} (h : handler A) (e : env) (db : database)
  : step A * database :=
  match h e (db, 0%nat) with
  | (r, (db', _)) => (r, db')
  end.

End Query.

(** ** services/audit.service.js, the rest *)

Module AuditLedger.
Import Constants.

(** Log a case creation event. *)
Definition logCaseCreated (caseId : Z) (performedBy : Z) (details : Js.json)
  : handler Audit.row :=
  AuditService.log caseId AUDIT_ACTIONS.CASE_CREATED None (Some "Created")
    None None performedBy details.

(** Log comment added. *)
Definition logCommentAdded (caseId : Z) (performedBy : Z) (details : Js.json)
  : handler Audit.row :=
  AuditService.log caseId AUDIT_ACTIONS.COMMENT_ADDED None None None None
    performedBy details.

(** A row of the audit trail: [cal.*] with the name and the email of the
    user who performed the action. *)
Record trail_row : Type := TrailRow {
  entry : Audit.row;
  performed_by_name : string;
  performed_by_email : string
}.

(** [FROM case_audit_log cal JOIN users u ON cal.performed_by = u.id
     WHERE cal.case_id = $1]: an entry whose performer is not a user joins
    with nothing. *)
Definition joined (caseId : Z) (db : database) (a : Audit.row)
  : option trail_row :=
  if Audit.case_id a =? caseId then
    match users db !! Audit.performed_by a with
    | Some u =>
        Some {| entry := a; performed_by_name := User.name u;
                performed_by_email := User.email u |}
    | None => None
    end
  else None.

(** [ORDER BY cal.timestamp DESC] *)
Definition newer_first (r1 r2 : trail_row) : bool :=
  Audit.timestamp (entry r2) <=? Audit.timestamp (entry r1).

(** Get audit trail for a case. *)
Definition getAuditTrail (caseId : Z) : handler (list trail_row) :=
  query (fun _ db =>
           (Query.order_by newer_first
              (omap (joined caseId db) (case_audit_log db)), db)).

End AuditLedger.

(** ** routes/cases.routes.js, the routes that read *)

Module CasesReads.
Import Constants.

(** [c.*] with the names and emails of the creator and the assignee (LEFT
    JOINs: [None] where there is no such user). *)
Record case_details : Type := CaseDetails {
  row : Case.row;
  created_by_name : option string;
  created_by_email : option string;
  assigned_to_name : option string;
  assigned_to_email : option string
}.

(** The details with the transitions open to the user. *)
Record case_view : Type := CaseView {
  details : case_details;
  availableTransitions : list string
}.

(** [LEFT JOIN users assignee ON c.assigned_to = assignee.id] *)
Definition assignee_of (db : database) (c : Case.row) : option User.row :=
  match Case.assigned_to c with
  | Some a => users db !! a
  | None => None
  end.

Definition select_details (id : Z) : Z -> database -> option case_details * database :=
  fun _ db =>
    (match cases db !! id with
     | Some c =>
         Some {| row := c;
                 created_by_name := User.name <$> users db !! Case.created_by c;
                 created_by_email :=
                   User.email <$> users db !! Case.created_by c;
                 assigned_to_name := User.name <$> assignee_of db c;
                 assigned_to_email := User.email <$> assignee_of db c |}
     | None => None
     end, db).

(** [GET /api/cases/:id]: case details. *)
Definition get_case (user : User.row) (id : Z) : handler case_view :=
  result ← query (select_details id);
  match result with
  | None => send 404 (ErrorMessage "Case not found")
  | Some caseData =>
      (* Add available transitions for current user *)
      mret {| details := caseData;
              availableTransitions :=
                WorkflowService.getAvailableTransitions
                  (Case.status (row caseData)) (User.role user) |}
  end.

(** [GET /api/cases/:id/audit]: audit trail for a case (Manager/Admin
    only). *)
Definition get_audit (user : User.row) (id : Z)
  : handler (list AuditLedger.trail_row) :=
  Rbac.requireManager user;;
  audit ← AuditLedger.getAuditTrail id;
  mret audit.

(** The query string of [GET /api/cases]; [page] and [limit] as [toInt()]
    left them, for a request whose [page] and [limit] are integers (the
    handler never looks at what the validators found). *)
Record list_query : Type := ListQuery {
  status : option string;
  priority : option string;
  category : option string;
  page : option Z;
  limit : option Z
}.

(** [if (status)]: the filter is applied for a string that is not empty. *)
Definition filter_on (wanted : option string) (actual : string) : bool :=
  match wanted with
  | Some s => Js.eqs s "" || Js.eqs actual s
  | None => true
  end.

(** Role-based filtering: a requester sees the cases they created, an
    analyst those assigned to or created by them, managers and admins see
    all. *)
Definition role_filter (user : User.row) (c : Case.row) : bool :=
  if Js.eqs (User.role user) ROLES.REQUESTER then
    Case.created_by c =? User.id user
  else if Js.eqs (User.role user) ROLES.ANALYST then
    CasesRoutes.is_user (Case.assigned_to c) (User.id user)
    || (Case.created_by c =? User.id user)
  else true.

(** The [WHERE] clause the handler builds, conditions joined by [AND]. *)
Definition where_clause (user : User.row) (q : list_query) (c : Case.row)
  : bool :=
  role_filter user c
  && filter_on (status q) (Case.status c)
  && filter_on (priority q) (Case.priority c)
  && filter_on (category q) (Case.category c).

(** [CASE c.priority WHEN 'Critical' THEN 1 ... ELSE 4 END] *)
Definition priority_rank (c : Case.row) : Z :=
  if Js.eqs (Case.priority c) "Critical" then 1
  else if Js.eqs (Case.priority c) "High" then 2
  else if Js.eqs (Case.priority c) "Medium" then 3
  else 4.

(** [ORDER BY] that rank, then [c.created_at DESC]. *)
Definition listed_before (c1 c2 : Case.row) : bool :=
  (priority_rank c1 <? priority_rank c2)
  || ((priority_rank c1 =? priority_rank c2)
      && (Case.created_at c2 <=? Case.created_at c1)).

(** A row of the list: [c.*], the two names and the SLA status. *)
Record listed : Type := Listed {
  listed_row : Case.row;
  listed_created_by_name : option string;
  listed_assigned_to_name : option string;
  sla_status : string
}.

Record pagination : Type := Pagination {
  pagination_page : Z;
  pagination_limit : Z;
  total : Z;
  totalPages : option Z
}.

Record case_list : Type := CaseList {
  listed_cases : list listed;
  pages : pagination
}.

(** [Math.ceil(total / limit)]; dividing by zero gives no number. *)
Definition ceil_div (total limit : Z) : option Z :=
  if limit =? 0 then None else Some (- ((- total) / limit)).

(** The second statement of the list: it is rejected by the store when the
    limit or the offset is negative. *)
Definition select_page (user : User.row) (q : list_query) (limit offset : Z)
  : handler (list listed) :=
  fun e '(db, n) =>
    if faulty e n || (limit <? 0) || (offset <? 0) then
      (Finish Next, (db, S n))
    else
      (Continue
         (map (fun c =>
                 {| listed_row := c;
                    listed_created_by_name :=
                      User.name <$> users db !! Case.created_by c;
                    listed_assigned_to_name :=
                      User.name <$> assignee_of db c;
                    sla_status := Sla.sla_status (sql_now e n) c |})
            (take (Z.to_nat limit)
               (drop (Z.to_nat offset)
                  (Query.order_by listed_before
                     (List.filter (where_clause user q)
                        (Query.case_rows db)))))),
       (db, S n)).

(** [GET /api/cases]: list cases (filtered by role). *)
Definition get_cases (user : User.row) (q : list_query) : handler case_list :=
  let page := default 1 (page q) in
  let limit := default 20 (limit q) in
  let offset := (page - 1) * limit in
  total ← query (fun _ db =>
                   (Z.of_nat (length (List.filter (where_clause user q)
                                        (Query.case_rows db))), db));
  casesResult ← select_page user q limit offset;
  mret {| listed_cases := casesResult;
          pages := {| pagination_page := page; pagination_limit := limit;
                      total := total;
                      totalPages := ceil_div total limit |} |}.

End CasesReads.


(** ** What the list is to show *)

Module Visibility.

(** A requester sees the cases they created, an analyst those assigned to
    or created by them. *)
Definition may_see (user : User.row) (c : Case.row) : Prop :=
  (User.role user = "requester" -> Case.created_by c = User.id user)
  /\ (User.role user = "analyst" ->
      Case.assigned_to c = Some (User.id user)
      \/ Case.created_by c = User.id user).

(** A filter that was given, and is not the empty string, is met. *)
Definition asked_for (wanted : option string) (actual : string) : Prop :=
  forall s : string, wanted = Some s -> s <> "" -> actual = s.

Definition selected (user : User.row) (q : CasesReads.list_query)
    (c : Case.row) : Prop :=
  may_see user c
  /\ asked_for (CasesReads.status q) (Case.status c)
  /\ asked_for (CasesReads.priority q) (Case.priority c)
  /\ asked_for (CasesReads.category q) (Case.category c).

(** The order of the list: by priority rank, newest first within a rank. *)
Definition ranked_before (c1 c2 : Case.row) : Prop :=
  CasesReads.priority_rank c1 < CasesReads.priority_rank c2
  \/ (CasesReads.priority_rank c1 = CasesReads.priority_rank c2
      /\ Case.created_at c2 <= Case.created_at c1).

End Visibility.

(** ** A store with a history *)

Module History.

(** The case under review, as the log tells it. *)
Definition entries : list Audit.row :=
  [ Spec.status_entry 2 "Created" "Assigned" 2 100;
    Spec.status_entry 2 "Assigned" "In Progress" 3 400;
    Spec.status_entry 1 "Created" "Created" 9 500;
    Spec.status_entry 2 "In Progress" "Under Review" 3 900 ].

Definition store : database :=
  {| users := users Example.store;
     cases := <[3 := MoreExamples.undated_case]> (cases Example.store);
     case_audit_log := entries |}.

(** The first page of the high-priority cases. *)
Definition high_first_page : CasesReads.list_query :=
  {| CasesReads.status := None; CasesReads.priority := Some "High";
     CasesReads.category := None; CasesReads.page := Some 1;
     CasesReads.limit := Some 10 |}.

End History.
(** * Properties *)

Import Constants.

(** ** JavaScript helpers *)

Lemma eqs_eq (a b : string) : Js.eqs a b = true <-> a = b.
Proof. apply String.eqb_eq. Qed.

Lemma eqs_neq (a b : string) : Js.eqs a b = false <-> a <> b.
Proof. apply String.eqb_neq. Qed.

Lemma eqs_refl (a : string) : Js.eqs a a = true.
Proof. apply String.eqb_refl. Qed.

Lemma includes_elem_of (arr : list string) (x : string) :
  Js.includes arr x = true <-> x ∈ arr.
Proof.
  unfold Js.includes. rewrite existsb_exists. split.
  - intros (y & Hy & Heq). apply eqs_eq in Heq. subst y.
    by apply list_elem_of_In.
  - intros Hx. exists x. split; [by apply list_elem_of_In | apply eqs_refl].
Qed.

Lemma includes_not_elem_of (arr : list string) (x : string) :
  Js.includes arr x = false <-> x ∉ arr.
Proof.
  rewrite <- includes_elem_of. destruct (Js.includes arr x); split; congruence.
Qed.

Ltac eqs_hyps :=
  repeat match goal with
         | H : Js.eqs _ _ = true |- _ => apply eqs_eq in H
         | H : Js.eqs _ _ = false |- _ => apply eqs_neq in H
         end.

(** Case analysis on [s === lit]: in the equal case [s] becomes the
    literal, in the other the test is kept as a rewrite rule. *)
Ltac split_eqs s lit :=
  let E := fresh "E" in
  destruct (Js.eqs s lit) eqn:E;
  [ apply eqs_eq in E; subst s | ].

(** ** The transition policy *)

(** Lookups in a table written as an object literal. *)
Section Tables.
Context {A : Type}.
Implicit Types (o : list (string * A)) (k : string) (v : A).

Lemma prop_Some_elem_of o k v : Js.prop o k = Some v -> (k, v) ∈ o.
Proof.
  induction o as [| [k' v'] o IH]; simpl; [done |].
  destruct (Js.eqs k k') eqn:E.
  - apply eqs_eq in E. intros [= ->]. subst. left.
  - intros H. right. by apply IH.
Qed.

Lemma prop_None_keys o k : Js.prop o k = None <-> k ∉ Js.keys o.
Proof.
  induction o as [| [k' v'] o IH]; simpl.
  - split; [intros _; apply not_elem_of_nil | done].
  - rewrite not_elem_of_cons. destruct (Js.eqs k k') eqn:E.
    + apply eqs_eq in E. split; [done | intros [? _]; done].
    + apply eqs_neq in E. rewrite IH. tauto.
Qed.

Lemma prop_unique o k v :
  NoDup (Js.keys o) -> (k, v) ∈ o -> Js.prop o k = Some v.
Proof.
  induction o as [| [k' v'] o IH]; simpl.
  - intros _ H. by apply elem_of_nil in H.
  - intros Hnd Hin. apply NoDup_cons in Hnd as [Hk' Hnd].
    apply elem_of_cons in Hin as [[= <- <-] | Hin].
    + by rewrite eqs_refl.
    + destruct (Js.eqs k k') eqn:E; [| by apply IH].
      apply eqs_eq in E. subst k'. exfalso. apply Hk'.
      apply list_elem_of_fmap. by exists (k, v).
Qed.
End Tables.



(** A fold that pushes the selected targets is a filter followed by a map. *)
Lemma push_loop_filter (role : string) (ds : list (string * list string))
    (acc : list string) :
  fold_left
    (fun available '(targetStatus, allowedRoles) =>
       if Js.includes allowedRoles role
       then Js.push available targetStatus
       else available) ds acc
  = acc ++ map fst (List.filter (fun d => Js.includes d.2 role) ds).
Proof.
  revert acc. induction ds as [| [t rs] ds IH]; intros acc; simpl.
  - by rewrite app_nil_r.
  - rewrite IH. destruct (Js.includes rs role); simpl; [| done].
    unfold Js.push. by rewrite <- app_assoc.
Qed.

(** The transition table holds the declared edges, in their order. *)
Lemma TRANSITIONS_edges :
  flat_map (fun '(from, ds) => map (fun '(to, rs) => (from, to, rs)) ds)
           TRANSITIONS
  = Spec.edges.
Proof. reflexivity. Qed.

(** The keys of the transition table are distinct, and so are the
    destinations of each status, of which there is at least one. *)
Lemma TRANSITIONS_keys : NoDup (Js.keys TRANSITIONS).
Proof. compute_done. Qed.
Lemma TRANSITIONS_destinations :
  Forall (fun e : string * list (string * list string) =>
            e.2 ≠ [] ∧ NoDup (Js.keys e.2)) TRANSITIONS.
Proof. repeat constructor; try done; compute_done. Qed.

(** The edges out of a status, read off a table with distinct keys. *)
Lemma edges_from_table (table : list (string * list (string * list string)))
    (from : string) :
  NoDup (Js.keys table) ->
  List.filter (fun e => Js.eqs (Spec.source e) from)
    (flat_map (fun '(f, ds) => map (fun '(t, rs) => (f, t, rs)) ds) table)
  = match Js.prop table from with
    | Some ds => map (fun '(t, rs) => (from, t, rs)) ds
    | None => []
    end.
Proof.
  induction table as [| [f ds] table IH]; simpl; [done |].
  intros Hnd. apply NoDup_cons in Hnd as [Hf Hnd].
  rewrite List.filter_app, (IH Hnd). clear IH.
  destruct (Js.eqs from f) eqn:E.
  - apply eqs_eq in E. subst f.
    apply prop_None_keys in Hf. rewrite Hf, app_nil_r.
    induction ds as [| [t rs] ds IHds]; simpl; [done |].
    unfold Spec.source at 1. simpl. rewrite eqs_refl. by f_equal.
  - replace (List.filter _ (map _ ds)) with (@nil (string * string * list string)); [done |].
    induction ds as [| [t rs] ds IHds]; simpl; [done |].
    unfold Spec.source at 1. simpl.
    destruct (Js.eqs f from) eqn:E'; [| done].
    apply eqs_eq in E'. subst f. by rewrite eqs_refl in E.
Qed.

Lemma elem_of_edges_from (from : string) (e : string * string * list string) :
  e ∈ Spec.edges_from from <-> e ∈ Spec.edges ∧ Spec.source e = from.
Proof.
  unfold Spec.edges_from. rewrite !list_elem_of_In, List.filter_In.
  by rewrite eqs_eq.
Qed.

Lemma edges_from_TRANSITIONS (from : string) :
  Spec.edges_from from
  = match Js.prop TRANSITIONS from with
    | Some ds => map (fun '(t, rs) => (from, t, rs)) ds
    | None => []
    end.
Proof. apply (edges_from_table TRANSITIONS from TRANSITIONS_keys). Qed.

(** The statuses and the priorities are not names an object inherits. *)
Lemma statuses_not_inherited (s : string) :
  s ∈ STATUS.all -> s ∉ Js.inherited.
Proof.
  unfold STATUS.all, STATUS.CREATED, STATUS.ASSIGNED, STATUS.IN_PROGRESS,
    STATUS.UNDER_REVIEW, STATUS.CLOSED, Js.inherited.
  intros H. rewrite !elem_of_cons, elem_of_nil in H.
  destruct H as [-> | [-> | [-> | [-> | [-> | []]]]]];
    rewrite !not_elem_of_cons; repeat split; try discriminate;
    apply not_elem_of_nil.
Qed.

Lemma priorities_not_inherited (p : string) :
  p ∈ PRIORITY.all -> p ∉ Js.inherited.
Proof.
  unfold PRIORITY.all, PRIORITY.LOW, PRIORITY.MEDIUM, PRIORITY.HIGH,
    PRIORITY.CRITICAL, Js.inherited.
  intros H. rewrite !elem_of_cons, elem_of_nil in H.
  destruct H as [-> | [-> | [-> | [-> | []]]]];
    rewrite !not_elem_of_cons; repeat split; try discriminate;
    apply not_elem_of_nil.
Qed.

(** C1: for every triple (from, to, role) whose [from] and [to] are not
    names inherited from [Object.prototype], [canTransition] allows exactly
    when (from, to) is one of the five declared edges and the role is in the
    edge's authorized set; otherwise it denies for one of three reasons a
    caller can tell apart: no declared edge leaves [from]; [from]->[to] is
    not a declared edge, the message listing the valid destinations from
    [from]; or the edge exists and the role is not authorized, the message
    naming the required roles. *)
Theorem canTransition_decision (from to role : string) :
  from ∉ Js.inherited -> to ∉ Js.inherited ->
  let r := WorkflowService.canTransition from to role in
  (Spec.allowed r <-> ∃ roles, (from, to, roles) ∈ Spec.edges ∧ role ∈ roles)
  ∧ ( (Spec.allowed r ∧ ∃ roles, (from, to, roles) ∈ Spec.edges ∧ role ∈ roles)
    ∨ (Spec.denied Spec.UnknownSource
         ("No transitions available from status: " +:+ from) r
       ∧ Spec.destinations from = [])
    ∨ (Spec.denied Spec.InvalidEdge
         ("Cannot transition from '" +:+ from +:+ "' to '" +:+ to
          +:+ "'. Valid destinations: " +:+ Js.join (Spec.destinations from) ", ") r
       ∧ Spec.destinations from ≠ [] ∧ to ∉ Spec.destinations from)
    ∨ (∃ roles,
         Spec.denied Spec.UnauthorizedRole
           ("Role '" +:+ role
            +:+ "' is not authorized for this transition. Required: "
            +:+ Js.join roles " or ") r
         ∧ (from, to, roles) ∈ Spec.edges ∧ role ∉ roles)).
Proof.
  intros _ _ r. subst r.
  unfold WorkflowService.canTransition, Spec.allowed, Spec.denied.
  pose proof (edges_from_TRANSITIONS from) as Hef.
  assert (Hin : ∀ rs, (from, to, rs) ∈ Spec.edges
                      <-> (from, to, rs) ∈ Spec.edges_from from).
  { intros rs. rewrite elem_of_edges_from. unfold Spec.source. simpl. tauto. }
  destruct (Js.prop TRANSITIONS from) as [ds |] eqn:Hfrom.
  - assert (Hwf : ds ≠ [] ∧ NoDup (Js.keys ds)).
    { apply prop_Some_elem_of in Hfrom. pose proof TRANSITIONS_destinations as W.
      rewrite Forall_forall in W. exact (W _ Hfrom). }
    destruct Hwf as [Hne Hnd].
    assert (Hdest : Spec.destinations from = Js.keys ds).
    { unfold Spec.destinations, Js.keys. rewrite Hef, map_map.
      apply map_ext. by intros [t rs]. }
    assert (Hedge : ∀ rs, (from, to, rs) ∈ Spec.edges <-> (to, rs) ∈ ds).
    { intros rs. rewrite Hin, Hef, list_elem_of_fmap. split.
      - intros ([t rs'] & Heq & H). by simplify_eq.
      - intros H. by exists (to, rs). }
    rewrite Hdest.
    destruct (Js.prop ds to) as [rs |] eqn:Hto.
    + assert (Huniq : ∀ rs', (from, to, rs') ∈ Spec.edges -> rs' = rs).
      { intros rs' H. apply Hedge, (prop_unique _ _ _ Hnd) in H. congruence. }
      apply prop_Some_elem_of, Hedge in Hto.
      destruct (Js.includes rs role) eqn:Hrole; simpl.
      * apply includes_elem_of in Hrole.
        split; [split; [intros _; by exists rs | done] |].
        left. split; [done | by exists rs].
      * apply includes_not_elem_of in Hrole. split.
        { split; [done |]. intros (rs' & H & Hr).
          apply Huniq in H. by subst rs'. }
        right; right; right. exists rs. by repeat split.
    + apply prop_None_keys in Hto. split.
      * split; [done |]. intros (rs' & H & _).
        apply Hedge in H. exfalso. apply Hto, list_elem_of_fmap. by exists (to, rs').
      * right; right; left. repeat split; [| done].
        intros H. destruct ds; [done | discriminate].
  - split.
    + split; [done |]. intros (rs' & H & _). apply Hin in H.
      rewrite Hef in H. exfalso. by apply elem_of_nil in H.
    + right; left. split; [by split |].
      unfold Spec.destinations. by rewrite Hef.
Qed.

(** A manager moves a Created case to Assigned. *)
Lemma canTransition_decision_witness :
  ("Created" ∉ Js.inherited) ∧ ("Assigned" ∉ Js.inherited)
  ∧ Spec.allowed (WorkflowService.canTransition "Created" "Assigned" "manager").
Proof.
  assert (Hfrom : "Created" ∉ Js.inherited)
    by (apply statuses_not_inherited; left).
  assert (Hto : "Assigned" ∉ Js.inherited)
    by (apply statuses_not_inherited; right; left).
  split; [exact Hfrom |]. split; [exact Hto |].
  destruct (canTransition_decision "Created" "Assigned" "manager" Hfrom Hto)
    as [Hiff _].
  apply Hiff. exists ["manager"; "admin"]. split; [| left]. left.
Defined.

(** C8: [getAvailableTransitions from role] is exactly the targets of the
    declared edges out of [from] whose authorized roles contain [role], in
    the declaration order of the table; it is empty from Closed, and empty
    when the role matches no edge out of [from]. *)
Theorem getAvailableTransitions_declared (from role : string) :
  WorkflowService.getAvailableTransitions from role
  = map Spec.target
      (List.filter (fun e => Js.includes (Spec.roles e) role)
         (Spec.edges_from from))
  ∧ WorkflowService.getAvailableTransitions "Closed" role = []
  ∧ (WorkflowService.getAvailableTransitions from role = []
     <-> ¬ ∃ to roles, (from, to, roles) ∈ Spec.edges ∧ role ∈ roles).
Proof.
  assert (Heq : WorkflowService.getAvailableTransitions from role
    = map Spec.target
        (List.filter (fun e => Js.includes (Spec.roles e) role)
           (Spec.edges_from from))).
  { unfold WorkflowService.getAvailableTransitions.
    rewrite edges_from_TRANSITIONS.
    destruct (Js.prop TRANSITIONS from) as [ds |]; [| done].
    rewrite push_loop_filter. simpl. unfold Js.entries.
    induction ds as [| [t rs] ds IH]; simpl; [done |].
    unfold Spec.roles at 1. simpl.
    destruct (Js.includes rs role); simpl; by rewrite IH. }
  split; [exact Heq |]. split; [done |].
  rewrite Heq. split.
  - intros Hnil (to & rs & Hin & Hrole).
    apply fmap_nil_inv in Hnil.
    assert (H : (from, to, rs) ∈ List.filter
              (fun e => Js.includes (Spec.roles e) role) (Spec.edges_from from)).
    { apply list_elem_of_In, List.filter_In. split.
      - apply list_elem_of_In, elem_of_edges_from. by split.
      - by apply includes_elem_of. }
    rewrite Hnil in H. by apply elem_of_nil in H.
  - intros Hno.
    destruct (List.filter _ (Spec.edges_from from)) as [| [[f t] rs] l] eqn:Hf;
      [done |].
    exfalso. apply Hno. exists t, rs.
    assert (H : (f, t, rs) ∈ List.filter
              (fun e => Js.includes (Spec.roles e) role) (Spec.edges_from from)).
    { rewrite Hf. left. }
    apply list_elem_of_In, List.filter_In in H as [H Hr].
    apply list_elem_of_In, elem_of_edges_from in H as [H Hs].
    unfold Spec.source in Hs. simpl in Hs. subst f. split; [done | by apply includes_elem_of].
Qed.

(** ** The requirement validator *)

(** C5: for a case whose assignee is null or a user, the list
    [validateTransitionRequirements] returns holds a violation exactly when
    the target is Assigned and the case has no assignee, or the target is
    Closed and the current status is not Under Review; the check passes
    exactly when the list is empty.  The validator reads the case and the
    target only: closing a case that is not under review is rejected
    whatever the transition policy said. *)
Theorem validateTransitionRequirements_violations (c : Case.row)
    (target : string) :
  Spec.assignee_is_reference c ->
  let r := WorkflowService.validateTransitionRequirements c target in
  (WorkflowService.errors r ≠ []
   <-> (target = "Assigned" ∧ Case.assigned_to c = None)
       ∨ (target = "Closed" ∧ Case.status c ≠ "Under Review"))
  ∧ (WorkflowService.req_valid r = true <-> WorkflowService.errors r = [])
  ∧ ("Case must have an assignee before setting status to Assigned"
       ∈ WorkflowService.errors r
     <-> target = "Assigned" ∧ Case.assigned_to c = None)
  ∧ ("Case must be Under Review before closing" ∈ WorkflowService.errors r
     <-> target = "Closed" ∧ Case.status c ≠ "Under Review").
Proof.
  unfold Spec.assignee_is_reference, Spec.user_key.
  unfold WorkflowService.validateTransitionRequirements,
    WorkflowService.no_assignee.
  unfold STATUS.ASSIGNED, STATUS.CLOSED, STATUS.UNDER_REVIEW.
  intros Href.
  destruct (Js.eqs target "Assigned") eqn:E1;
  destruct (Js.eqs target "Closed") eqn:E2;
  destruct (Js.eqs (Case.status c) "Under Review") eqn:E3;
  eqs_hyps; try (subst target; discriminate);
  destruct (Case.assigned_to c) as [k |];
  try (destruct (Z.eqb_spec k 0); [lia |]);
  unfold Js.push; simpl; rewrite ?elem_of_cons, ?elem_of_nil;
  intuition congruence.
Qed.

(** Closing the case that was only just created is refused. *)
Lemma validateTransitionRequirements_witness :
  Spec.assignee_is_reference Example.new_case
  ∧ WorkflowService.errors
      (WorkflowService.validateTransitionRequirements Example.new_case "Closed")
    ≠ [].
Proof.
  split; [exact I |].
  apply (validateTransitionRequirements_violations Example.new_case "Closed" I).
  right. split; [reflexivity | discriminate].
Defined.

(** ** The SLA clock *)

Lemma setHours_getHours (d h : Z) :
  Date.setHours d (Date.getHours d + h) = d + h * Date.ms_per_hour.
Proof. unfold Date.setHours. ring. Qed.

Lemma SLA_DEFAULTS_hours (priority : string) :
  Sla.or_default (Js.prop SLA_DEFAULTS priority) 48 = Spec.sla_hours priority.
Proof.
  unfold Spec.sla_hours, SLA_DEFAULTS, PRIORITY.LOW, PRIORITY.MEDIUM,
    PRIORITY.HIGH, PRIORITY.CRITICAL. simpl.
  repeat match goal with
         | |- context [Js.eqs priority ?l] => destruct (Js.eqs priority l)
         end; reflexivity.
Qed.

Lemma calculateSlaDueDate_run (priority : string) (e : env)
    (s : database * nat) :
  CasesRoutes.calculateSlaDueDate priority e s
  = (Continue (js_now e + Spec.sla_hours priority * Date.ms_per_hour), s).
Proof.
  unfold CasesRoutes.calculateSlaDueDate, newDate, mbind, handler_bind,
    mret, handler_ret.
  by rewrite setHours_getHours, SLA_DEFAULTS_hours.
Qed.

(** C9: for a priority that is not a name inherited from
    [Object.prototype], the due date [calculateSlaDueDate] computes is the
    time it is called at plus the SLA hours of the priority, 72 for Low, 48
    for Medium, 24 for High and 4 for Critical, and plus 48 hours for a
    priority that is not in the table; the store is not touched. *)
Theorem calculateSlaDueDate_hours (priority : string) (e : env)
    (s : database * nat) :
  priority ∉ Js.inherited ->
  CasesRoutes.calculateSlaDueDate priority e s
  = (Continue (js_now e + Spec.sla_hours priority * Date.ms_per_hour), s)
  ∧ Spec.sla_hours "Low" = 72 ∧ Spec.sla_hours "Medium" = 48
  ∧ Spec.sla_hours "High" = 24 ∧ Spec.sla_hours "Critical" = 4
  ∧ (priority ∉ ["Low"; "Medium"; "High"; "Critical"] ->
     CasesRoutes.calculateSlaDueDate priority e s
     = (Continue (js_now e + 48 * Date.ms_per_hour), s)).
Proof.
  intros _. pose proof (calculateSlaDueDate_run priority e s) as H.
  repeat split; try done.
  intros Hnot. rewrite H. repeat f_equal.
  rewrite !not_elem_of_cons in Hnot. destruct Hnot as (H1 & H2 & H3 & H4 & _).
  apply eqs_neq in H1, H2, H3, H4. unfold Spec.sla_hours.
  by rewrite H1, H2, H3, H4.
Qed.

(** A priority the table does not have is given 48 hours. *)
Lemma calculateSlaDueDate_witness :
  ("Urgent" ∉ Js.inherited)
  ∧ ("Urgent" ∉ ["Low"; "Medium"; "High"; "Critical"])
  ∧ CasesRoutes.calculateSlaDueDate "Urgent" Example.healthy
      (Example.store, 0%nat)
    = (Continue (7200000 + 48 * 3600000), (Example.store, 0%nat)).
Proof.
  assert (Hown : "Urgent" ∉ Js.inherited).
  { unfold Js.inherited. rewrite !not_elem_of_cons.
    repeat split; try discriminate. apply not_elem_of_nil. }
  assert (H : "Urgent" ∉ ["Low"; "Medium"; "High"; "Critical"]).
  { rewrite !not_elem_of_cons. repeat split; try discriminate.
    apply not_elem_of_nil. }
  split; [exact Hown |]. split; [exact H |].
  destruct (calculateSlaDueDate_hours "Urgent" Example.healthy
              (Example.store, 0%nat) Hown) as (_ & _ & _ & _ & _ & Hdefault).
  exact (Hdefault H).
Defined.

(** The [CASE] expression, read as the precedence it implements. *)
Lemma sla_status_window (now dueAt : Z) (c : Case.row) :
  Case.sla_due_at c = Some dueAt ->
  Sla.sla_status now c
  = if Js.eqs (Case.status c) "Closed" then "closed"
    else if dueAt <? now then "overdue"
    else match Spec.risk_window (Case.priority c) with
         | Some w => if dueAt <? now + Sla.hours w then "at_risk" else "on_track"
         | None => "on_track"
         end.
Proof.
  destruct c as [i ci t d cat p s asg cb sla ca ua]. simpl. intros ->.
  unfold Sla.sla_status, Spec.risk_window, Sla.sql_lt. simpl.
  destruct (Js.eqs s "Closed"); [done |].
  destruct (dueAt <? now); [done |].
  split_eqs p "Critical"; [simpl; by destruct (_ <? _) |].
  split_eqs p "High"; [simpl; by destruct (_ <? _) |].
  split_eqs p "Medium"; [simpl; by destruct (_ <? _) |].
  split_eqs p "Low"; [simpl; by destruct (_ <? _) |].
  done.
Qed.

(** The claim C6 as it is stated, with "overdue" from [now >= dueAt] on,
    fails at [now = dueAt]: the case under review, looked at in the very
    millisecond it is due, is at risk and not overdue. *)
Lemma sla_status_due_now_is_not_overdue :
  ¬ (∀ (now dueAt : Z) (c : Case.row),
       Case.sla_due_at c = Some dueAt -> Case.status c ≠ "Closed" ->
       now >= dueAt -> Sla.sla_status now c = "overdue").
Proof.
  intros H.
  assert (Hs : Sla.sla_status 5400000 Example.review_case = "at_risk")
    by reflexivity.
  assert (Hopen : Case.status Example.review_case ≠ "Closed")
    by discriminate.
  specialize (H 5400000 5400000 Example.review_case eq_refl Hopen).
  rewrite Hs in H. discriminate H. lia.
Qed.

(** C6, amended: a Closed case is "closed" whatever its due time; otherwise
    the case is "overdue" ("breached" on the dashboard) exactly when its due
    time is strictly before now; otherwise it is "at_risk" when less than
    the risk window of its priority (Critical 1h, High 2h, Medium 6h,
    Low 12h) remains, and "on_track" if not.  A Critical case due in 30
    minutes is at risk, one due a second ago is overdue. *)
Theorem sla_status_precedence (now dueAt : Z) (c : Case.row) :
  Case.sla_due_at c = Some dueAt ->
  (Case.status c = "Closed" -> Sla.sla_status now c = "closed")
  ∧ (Case.status c ≠ "Closed" -> dueAt < now ->
     Sla.sla_status now c = "overdue" ∧ Sla.breach_status now c = "breached")
  ∧ (Case.status c ≠ "Closed" -> now <= dueAt ->
     Sla.sla_status now c ≠ "overdue" ∧ Sla.breach_status now c ≠ "breached")
  ∧ (Case.status c ≠ "Closed" -> now <= dueAt ->
     ∀ w, Spec.risk_window (Case.priority c) = Some w ->
          dueAt - now < Sla.hours w -> Sla.sla_status now c = "at_risk")
  ∧ (Case.status c ≠ "Closed" -> now <= dueAt ->
     (∀ w, Spec.risk_window (Case.priority c) = Some w ->
           Sla.hours w <= dueAt - now) ->
     Sla.sla_status now c = "on_track")
  ∧ (Case.status c ≠ "Closed" -> Case.priority c = "Critical" ->
     (dueAt = now + 30 * 60 * 1000 -> Sla.sla_status now c = "at_risk")
     ∧ (dueAt = now - 1000 -> Sla.sla_status now c = "overdue")).
Proof.
  intros Hdue. rewrite (sla_status_window now dueAt c Hdue).
  unfold Sla.breach_status, Sla.sql_lt. rewrite Hdue.
  assert (Hopen : Case.status c ≠ "Closed"
                  -> Js.eqs (Case.status c) "Closed" = false)
    by apply eqs_neq.
  split; [by intros -> |].
  split.
  { intros Hs Hlt. rewrite (Hopen Hs).
    by rewrite (proj2 (Z.ltb_lt dueAt now) Hlt). }
  split.
  { intros Hs Hle. rewrite (Hopen Hs), (proj2 (Z.ltb_ge dueAt now) Hle).
    split; [| by destruct (dueAt <? now + Sla.hours 4)].
    destruct (Spec.risk_window _); [by destruct (_ <? _) | done]. }
  split.
  { intros Hs Hle w Hw Hlt.
    rewrite (Hopen Hs), (proj2 (Z.ltb_ge dueAt now) Hle), Hw.
    rewrite (proj2 (Z.ltb_lt _ _)); [done | lia]. }
  split.
  { intros Hs Hle Hw.
    rewrite (Hopen Hs), (proj2 (Z.ltb_ge dueAt now) Hle).
    destruct (Spec.risk_window _) as [w |]; [| done].
    rewrite (proj2 (Z.ltb_ge _ _)); [done |]. specialize (Hw w eq_refl). lia. }
  intros Hs Hp. rewrite (Hopen Hs), Hp. split; intros ->.
  - rewrite (proj2 (Z.ltb_ge _ _)); [| lia]. simpl.
    rewrite (proj2 (Z.ltb_lt _ _)); [done |].
    unfold Sla.hours, Date.ms_per_hour. lia.
  - rewrite (proj2 (Z.ltb_lt _ _)); [done | lia].
Qed.

(** The Critical case under review, an hour in and due in 30 minutes. *)
Lemma sla_status_precedence_witness :
  Case.sla_due_at Example.review_case = Some 5400000
  ∧ Sla.sla_status 3600000 Example.review_case = "at_risk".
Proof.
  split; [reflexivity |].
  destruct (sla_status_precedence 3600000 5400000 Example.review_case eq_refl)
    as (_ & _ & _ & _ & _ & Hcritical).
  destruct Hcritical as [Hsoon _]; [discriminate | reflexivity |].
  apply Hsoon. reflexivity.
Defined.

(** ** The case routes *)

(** An [UPDATE ... WHERE id] on a row that is there replaces that row. *)
Lemma alter_lookup_insert (m : gmap Z Case.row) (f : Case.row -> Case.row)
    (i : Z) (c : Case.row) :
  m !! i = Some c -> alter f i m = <[i := f c]> m.
Proof.
  intros H. apply map_eq. intros j. rewrite lookup_alter, lookup_insert.
  case_decide; [subst j; by rewrite H | done].
Qed.

(** Unfold a request down to its statements. *)
Ltac run_handler :=
  unfold run, mbind, handler_bind, mret, handler_ret, query, send,
    AuditService.logAssignment, AuditService.logStatusChange,
    AuditService.logCaseUpdate, AuditService.log, query; simpl.





(** An assignment whose checks pass and whose statements all go through. *)
Lemma put_assign_run (e : env) (user assignee : User.row) (id a : Z)
    (c : Case.row) (db : database) :
  User.role user ∈ ["manager"; "admin"] ->
  users db !! a = Some assignee -> User.role assignee = "analyst" ->
  cases db !! id = Some c ->
  (∀ n, (n < if Js.eqs (Case.status c) "Created" then 5 else 4)%nat ->
        faulty e n = false) ->
  let newStatus :=
    if Js.eqs (Case.status c) "Created" then "Assigned" else Case.status c in
  let c' := fold_left (Sql.assign (sql_now e 2))
              [Sql.assigned_to_eq a; Sql.status_eq newStatus;
               Sql.updated_at_now] c in
  run (CasesRoutes.put_assign user id (Some a)) e db
  = (Sent 200 (CaseResult ("Case assigned to " +:+ User.name assignee)
                 (Some c')),
     {| users := users db; cases := <[id := c']> (cases db);
        case_audit_log :=
          case_audit_log db ++
          Spec.assignment_entry id (Case.assigned_to c) a
            (User.name assignee) (User.id user) (sql_now e 3)
          :: (if Js.eqs (Case.status c) "Created"
              then [Spec.auto_transition_entry id (User.id user)
                      (sql_now e 4)]
              else []) |}).
Proof.
  intros Hrole Ha Hanalyst Hc Hok newStatus c'. subst newStatus c'.
  unfold CasesRoutes.put_assign, Rbac.requireManager, Rbac.requireRole.
  apply includes_elem_of in Hrole.
  unfold ROLES.MANAGER, ROLES.ADMIN. rewrite Hrole.
  assert (Hfour : ∀ n, (n < 4)%nat -> faulty e n = false).
  { intros n Hn. apply Hok. destruct (Js.eqs _ _); lia. }
  run_handler.
  rewrite !Hfour by lia. simpl. rewrite Hc.
  rewrite !Hfour by lia. simpl. rewrite Ha, Hanalyst. simpl.
  rewrite !Hfour by lia. simpl.
  rewrite (alter_lookup_insert _ _ _ _ Hc), lookup_insert_eq.
  unfold STATUS.CREATED, STATUS.ASSIGNED.
  destruct (Js.eqs (Case.status c) "Created") eqn:Hs.
  - apply eqs_eq in Hs. rewrite Hs. simpl.
    rewrite Hok by lia. simpl. by rewrite <- app_assoc.
  - rewrite eqs_refl. simpl. done.
Qed.

(** C3: when a manager or an admin assigns an existing analyst to a case
    whose status is Created, the case gets that assignee and the status
    Assigned, without the transition policy being consulted, and exactly two
    audit entries are appended, first the assignment and then the status
    change marked as following from the assignment. *)
Theorem put_assign_created (e : env) (user assignee : User.row) (id a : Z)
    (c : Case.row) (db : database) :
  User.role user ∈ ["manager"; "admin"] ->
  users db !! a = Some assignee -> User.role assignee = "analyst" ->
  cases db !! id = Some c -> Case.status c = "Created" ->
  (∀ n, (n < 5)%nat -> faulty e n = false) ->
  ∃ c',
    run (CasesRoutes.put_assign user id (Some a)) e db
    = (Sent 200 (CaseResult ("Case assigned to " +:+ User.name assignee)
                   (Some c')),
       {| users := users db; cases := <[id := c']> (cases db);
          case_audit_log :=
            case_audit_log db ++
            [ Audit.Row id "CASE_ASSIGNED" None None (Case.assigned_to c)
                (Some a) (User.id user)
                (Js.JObj [Js.Field "assigneeName"
                            (Js.JStr (User.name assignee))])
                (sql_now e 3);
              Audit.Row id "STATUS_CHANGED" (Some "Created")
                (Some "Assigned") None None (User.id user)
                (Js.JObj [Js.Field "reason"
                            (Js.JStr "Auto-transitioned on assignment")])
                (sql_now e 4) ] |})
    ∧ Case.assigned_to c' = Some a ∧ Case.status c' = "Assigned".
Proof.
  intros Hrole Ha Hanalyst Hc Hcreated Hok.
  pose proof (put_assign_run e user assignee id a c db Hrole Ha Hanalyst Hc)
    as Hrun.
  rewrite Hcreated in Hrun. specialize (Hrun Hok).
  simpl in Hrun. rewrite Hrun. simpl.
  eexists. split; [reflexivity |]. by destruct c.
Qed.

(** The manager assigns the new case to Ann. *)
Lemma put_assign_created_witness :
  Case.status Example.new_case = "Created"
  ∧ ∃ c',
      cases (run (CasesRoutes.put_assign Example.manager 1 (Some 3))
               Example.healthy Example.store).2 !! 1 = Some c'
      ∧ Case.status c' = "Assigned".
Proof.
  split; [reflexivity |].
  destruct (put_assign_created Example.healthy Example.manager Example.analyst
              1 3 Example.new_case Example.store)
    as (c' & Hrun & _ & Hstatus).
  - left.
  - reflexivity.
  - reflexivity.
  - reflexivity.
  - reflexivity.
  - intros n _. reflexivity.
  - exists c'. rewrite Hrun. simpl. split; [apply lookup_insert_eq | exact Hstatus].
Defined.

(** The claim C4 as it is stated fails: when the manager hands the case
    under review to Ben, the row stored is not the old row with the assignee
    replaced, its [updated_at] has moved as well. *)
Lemma reassignment_touches_updated_at :
  ¬ (∀ (e : env) (user assignee : User.row) (id a : Z) (c : Case.row)
       (db : database),
       User.role user ∈ ["manager"; "admin"] ->
       users db !! a = Some assignee -> User.role assignee = "analyst" ->
       cases db !! id = Some c -> Case.status c ≠ "Created" ->
       (∀ n, (n < 4)%nat -> faulty e n = false) ->
       cases (run (CasesRoutes.put_assign user id (Some a)) e db).2 !! id
       = Some (Sql.assign 0 c (Sql.assigned_to_eq a))).
Proof.
  intros H.
  assert (Hrole : User.role Example.manager ∈ ["manager"; "admin"]) by left.
  assert (Hstatus : Case.status Example.review_case ≠ "Created")
    by discriminate.
  assert (Hok : ∀ n, (n < 4)%nat -> faulty Example.healthy n = false)
    by reflexivity.
  specialize (H Example.healthy Example.manager Example.second_analyst 2 4
                Example.review_case Example.store Hrole eq_refl eq_refl
                eq_refl Hstatus Hok).
  assert (Hrun : Case.updated_at <$>
            cases (run (CasesRoutes.put_assign Example.manager 2 (Some 4))
                     Example.healthy Example.store).2 !! 2
          = Some 7200002) by (vm_compute; reflexivity).
  rewrite H in Hrun. discriminate Hrun.
Qed.

(** C4, amended: when a manager or an admin assigns an existing analyst to
    a case whose status is not Created (Closed included), the case keeps its
    status and every other column except two: the assignee, and [updated_at],
    which takes the time of the update.  Exactly one audit entry is appended,
    and it records the previous assignee, null included. *)
Theorem put_assign_reassign (e : env) (user assignee : User.row) (id a : Z)
    (c : Case.row) (db : database) :
  User.role user ∈ ["manager"; "admin"] ->
  users db !! a = Some assignee -> User.role assignee = "analyst" ->
  cases db !! id = Some c -> Case.status c ≠ "Created" ->
  (∀ n, (n < 4)%nat -> faulty e n = false) ->
  let c' :=
    {| Case.id := Case.id c; Case.case_id := Case.case_id c;
       Case.title := Case.title c; Case.description := Case.description c;
       Case.category := Case.category c; Case.priority := Case.priority c;
       Case.status := Case.status c; Case.assigned_to := Some a;
       Case.created_by := Case.created_by c;
       Case.sla_due_at := Case.sla_due_at c;
       Case.created_at := Case.created_at c;
       Case.updated_at := sql_now e 2 |} in
  run (CasesRoutes.put_assign user id (Some a)) e db
  = (Sent 200 (CaseResult ("Case assigned to " +:+ User.name assignee)
                 (Some c')),
     {| users := users db; cases := <[id := c']> (cases db);
        case_audit_log :=
          case_audit_log db ++
          [ Audit.Row id "CASE_ASSIGNED" None None (Case.assigned_to c)
              (Some a) (User.id user)
              (Js.JObj [Js.Field "assigneeName"
                          (Js.JStr (User.name assignee))])
              (sql_now e 3) ] |}).
Proof.
  intros Hrole Ha Hanalyst Hc Hstatus Hok c'. subst c'.
  pose proof (put_assign_run e user assignee id a c db Hrole Ha Hanalyst Hc)
    as Hrun.
  apply eqs_neq in Hstatus. rewrite Hstatus in Hrun. specialize (Hrun Hok).
  simpl in Hrun. rewrite Hrun. by destruct c.
Qed.

(** The manager hands the case under review from Ann to Ben. *)
Lemma put_assign_reassign_witness :
  Case.status Example.review_case ≠ "Created"
  ∧ case_audit_log
      (run (CasesRoutes.put_assign Example.manager 2 (Some 4))
         Example.healthy Example.store).2
    = [ Spec.assignment_entry 2 (Some 3) 4 "Ben" 2 7200003 ].
Proof.
  assert (Hstatus : Case.status Example.review_case ≠ "Created")
    by discriminate.
  split; [exact Hstatus |].
  rewrite (put_assign_reassign Example.healthy Example.manager
             Example.second_analyst 2 4 Example.review_case Example.store).
  - reflexivity.
  - left.
  - reflexivity.
  - reflexivity.
  - reflexivity.
  - exact Hstatus.
  - intros n _. reflexivity.
Defined.

(** An update that names a priority, accepted and carried out up to the
    [UPDATE] statement. *)
Lemma put_case_stored (e : env) (user : User.row) (id : Z)
    (body : CasesRoutes.update_body) (p : string) (c : Case.row)
    (db : database) :
  CasesRoutes.valid_update body = true ->
  CasesRoutes.priority body = Some p ->
  cases db !! id = Some c ->
  (Case.created_by c =? User.id user)
  || CasesRoutes.is_user (Case.assigned_to c) (User.id user)
  || Js.includes ["manager"; "admin"] (User.role user) = true ->
  faulty e 0 = false -> faulty e 1 = false ->
  ∃ c', cases (run (CasesRoutes.put_case user id body) e db).2 !! id = Some c'
        ∧ Case.priority c' = p
        ∧ Case.sla_due_at c'
          = Some (js_now e + Spec.sla_hours p * Date.ms_per_hour)
        ∧ Case.created_at c' = Case.created_at c.
Proof.
  intros Hvalid Hp Hc Hedit F0 F1.
  unfold CasesRoutes.put_case. rewrite Hvalid. run_handler.
  rewrite F0. simpl. rewrite Hc.
  unfold ROLES.MANAGER, ROLES.ADMIN. simpl in Hedit. rewrite Hedit. simpl.
  rewrite Hp. simpl.
  destruct c as [i ci t d cat p0 s asg cb sla ca ua].
  destruct (CasesRoutes.title body), (CasesRoutes.description body),
    (CasesRoutes.category body); simpl; rewrite F1; simpl;
    rewrite (alter_lookup_insert _ _ _ _ Hc);
    destruct (faulty e 2); simpl; rewrite lookup_insert_eq;
    eexists; (split; [reflexivity |]); simpl;
    (split; [done |]); (split; [| done]);
    rewrite setHours_getHours; do 3 f_equal; apply (SLA_DEFAULTS_hours p).
Qed.

(** C7: when an update that a user may make names a priority, the due time
    stored with the case is the time of the edit plus the SLA hours of the
    new priority, whatever the creation time of the case and whatever due
    time it had before. *)
Theorem put_case_priority_restarts_sla (e : env) (user : User.row) (id : Z)
    (body : CasesRoutes.update_body) (p : string) (c : Case.row)
    (db : database) :
  CasesRoutes.valid_update body = true ->
  CasesRoutes.priority body = Some p ->
  cases db !! id = Some c ->
  (Case.created_by c =? User.id user)
  || CasesRoutes.is_user (Case.assigned_to c) (User.id user)
  || Js.includes ["manager"; "admin"] (User.role user) = true ->
  faulty e 0 = false -> faulty e 1 = false ->
  ∃ c', cases (run (CasesRoutes.put_case user id body) e db).2 !! id = Some c'
        ∧ Case.priority c' = p
        ∧ Case.created_at c' = Case.created_at c
        ∧ Case.sla_due_at c'
          = Some (js_now e + Spec.sla_hours p * Date.ms_per_hour).
Proof.
  intros Hvalid Hp Hc Hedit F0 F1.
  destruct (put_case_stored e user id body p c db Hvalid Hp Hc Hedit F0 F1)
    as (c' & Hstored & Hprio & Hdue & Hcreated).
  by exists c'.
Qed.

(** Two hours after its creation the manager makes the review case Low:
    it is now due 72 hours from the edit. *)
Lemma put_case_priority_restarts_sla_witness :
  Case.sla_due_at <$>
    cases (run (CasesRoutes.put_case Example.manager 2
                  (CasesRoutes.UpdateBody None None None (Some "Low")))
             Example.healthy Example.store).2 !! 2
  = Some (Some (7200000 + 72 * 3600000)).
Proof.
  destruct (put_case_priority_restarts_sla Example.healthy Example.manager 2
              (CasesRoutes.UpdateBody None None None (Some "Low")) "Low"
              Example.review_case Example.store
              eq_refl eq_refl eq_refl eq_refl eq_refl eq_refl)
    as (c' & Hstored & _ & _ & Hdue).
  rewrite Hstored. simpl. rewrite Hdue. reflexivity.
Defined.

(** C10: when the update names the priority the case already has, the due
    time stored is all the same the time of the request plus the SLA hours of
    that priority: the SLA window restarts although the priority is the one
    it was. *)
Theorem put_case_same_priority_restarts_sla (e : env) (user : User.row)
    (id : Z) (body : CasesRoutes.update_body) (c : Case.row) (db : database) :
  CasesRoutes.valid_update body = true ->
  CasesRoutes.priority body = Some (Case.priority c) ->
  cases db !! id = Some c ->
  (Case.created_by c =? User.id user)
  || CasesRoutes.is_user (Case.assigned_to c) (User.id user)
  || Js.includes ["manager"; "admin"] (User.role user) = true ->
  faulty e 0 = false -> faulty e 1 = false ->
  ∃ c', cases (run (CasesRoutes.put_case user id body) e db).2 !! id = Some c'
        ∧ Case.priority c' = Case.priority c
        ∧ Case.sla_due_at c'
          = Some (js_now e
                  + Spec.sla_hours (Case.priority c) * Date.ms_per_hour).
Proof.
  intros Hvalid Hp Hc Hedit F0 F1.
  destruct (put_case_stored e user id body (Case.priority c) c db
              Hvalid Hp Hc Hedit F0 F1)
    as (c' & Hstored & Hprio & Hdue & _).
  by exists c'.
Qed.

(** The new case, High and due 24 hours after its creation, is sent High
    again two hours later: it is now due 26 hours after its creation. *)
Lemma put_case_same_priority_restarts_sla_witness :
  Case.sla_due_at Example.new_case = Some (24 * 3600000)
  ∧ Case.sla_due_at <$>
      cases (run (CasesRoutes.put_case Example.manager 1
                    Example.same_priority)
               Example.healthy Example.store).2 !! 1
    = Some (Some (26 * 3600000)).
Proof.
  split; [reflexivity |].
  destruct (put_case_same_priority_restarts_sla Example.healthy
              Example.manager 1 Example.same_priority Example.new_case
              Example.store eq_refl eq_refl eq_refl eq_refl eq_refl eq_refl)
    as (c' & Hstored & _ & Hdue).
  rewrite Hstored. simpl. rewrite Hdue. reflexivity.
Defined.

(** ** More on the transition policy *)

(** [canTransition] allows when both lookups succeed and the role is
    included. *)
Lemma canTransition_valid (from to role : string) :
  WorkflowService.valid (WorkflowService.canTransition from to role) = true
  <-> ∃ ds rs, Js.prop TRANSITIONS from = Some ds ∧ Js.prop ds to = Some rs
               ∧ Js.includes rs role = true.
Proof.
  unfold WorkflowService.canTransition.
  destruct (Js.prop TRANSITIONS from) as [ds |] eqn:Hds.
  - destruct (Js.prop ds to) as [rs |] eqn:Hrs.
    + destruct (Js.includes rs role) eqn:Hr; simpl.
      * split; [intros _; by exists ds, rs | done].
      * split; [done |]. intros (ds' & rs' & [= <-] & Hrs' & Hr').
        congruence.
    + simpl. split; [done |]. intros (ds' & rs' & [= <-] & Hrs' & _).
      congruence.
  - simpl. split; [done |]. by intros (? & ? & ? & _).
Qed.

(** The triples the policy allows, listed. *)
Lemma canTransition_allowed (from to role : string) :
  WorkflowService.valid (WorkflowService.canTransition from to role) = true
  <-> (from, to, role) ∈
        [ ("Created", "Assigned", "manager"); ("Created", "Assigned", "admin");
          ("Assigned", "In Progress", "analyst");
          ("In Progress", "Under Review", "analyst");
          ("Under Review", "Closed", "manager");
          ("Under Review", "Closed", "admin");
          ("Under Review", "In Progress", "manager");
          ("Under Review", "In Progress", "admin") ].
Proof.
  rewrite !elem_of_cons, elem_of_nil.
  unfold WorkflowService.canTransition, TRANSITIONS, STATUS.CREATED,
    STATUS.ASSIGNED, STATUS.IN_PROGRESS, STATUS.UNDER_REVIEW, STATUS.CLOSED,
    ROLES.MANAGER, ROLES.ADMIN, ROLES.ANALYST.
  simpl.
  repeat match goal with
         | |- context [Js.eqs ?s ?l] =>
             is_var s;
             let E := fresh "E" in
             destruct (Js.eqs s l) eqn:E;
             [ apply eqs_eq in E; subst s | apply eqs_neq in E ]; simpl
         end;
    (split; [try discriminate; intros _; tauto |]);
    intros H; repeat destruct H as [H | H]; try done; congruence.
Qed.

(** What [getAvailableTransitions] offers, in terms of the two lookups. *)
Lemma available_lookup (from to role : string) :
  to ∈ WorkflowService.getAvailableTransitions from role
  <-> ∃ ds rs, Js.prop TRANSITIONS from = Some ds ∧ Js.prop ds to = Some rs
               ∧ Js.includes rs role = true.
Proof.
  unfold WorkflowService.getAvailableTransitions.
  destruct (Js.prop TRANSITIONS from) as [ds |] eqn:Hds.
  - assert (Hnd : NoDup (Js.keys ds)).
    { apply prop_Some_elem_of in Hds. pose proof TRANSITIONS_destinations as W.
      rewrite Forall_forall in W. exact (proj2 (W _ Hds)). }
    rewrite push_loop_filter. simpl. unfold Js.entries.
    rewrite list_elem_of_fmap. split.
    + intros ([t rs] & -> & Hin). simpl.
      apply list_elem_of_In, List.filter_In in Hin as [Hin Hr].
      apply list_elem_of_In in Hin. exists ds, rs.
      split; [done |]. split; [by apply prop_unique | exact Hr].
    + intros (ds' & rs & [= <-] & Hrs & Hr). exists (to, rs).
      split; [done |]. apply list_elem_of_In, List.filter_In.
      split; [by apply list_elem_of_In, prop_Some_elem_of | exact Hr].
  - split; [intros H; by apply elem_of_nil in H |].
    intros (ds & rs & Hds' & _). congruence.
Qed.

(** X1: for a status and a target that are not names inherited from
    [Object.prototype], the target is offered by [getAvailableTransitions]
    exactly when [canTransition] allows the move to it for the same status
    and role, and no target is offered twice. *)
Theorem available_iff_allowed (from to role : string) :
  from ∉ Js.inherited -> to ∉ Js.inherited ->
  (to ∈ WorkflowService.getAvailableTransitions from role
   <-> WorkflowService.valid (WorkflowService.canTransition from to role)
       = true)
  ∧ NoDup (WorkflowService.getAvailableTransitions from role).
Proof.
  intros _ _.
  split; [by rewrite canTransition_valid, available_lookup |].
  unfold WorkflowService.getAvailableTransitions.
  destruct (Js.prop TRANSITIONS from) as [ds |] eqn:Hds; [| constructor].
  assert (Hnd : NoDup (Js.keys ds)).
  { apply prop_Some_elem_of in Hds. pose proof TRANSITIONS_destinations as W.
    rewrite Forall_forall in W. exact (proj2 (W _ Hds)). }
  rewrite push_loop_filter. simpl. unfold Js.entries, Js.keys in *.
  clear Hds. induction ds as [| [t rs] ds IH]; simpl; [constructor |].
  apply NoDup_cons in Hnd as [Ht Hnd]. specialize (IH Hnd).
  destruct (Js.includes rs role); simpl; [| exact IH].
  apply NoDup_cons. split; [| exact IH].
  intros Hin. apply Ht. apply list_elem_of_fmap in Hin as (d & -> & Hd).
  apply list_elem_of_In, List.filter_In in Hd as [Hd _].
  apply list_elem_of_fmap. exists d. split; [done | by apply list_elem_of_In].
Qed.

(** An admin is offered the closing of a case under review. *)
Lemma available_iff_allowed_witness :
  ("Under Review" ∉ Js.inherited) ∧ ("Closed" ∉ Js.inherited)
  ∧ "Closed" ∈ WorkflowService.getAvailableTransitions "Under Review" "admin".
Proof.
  assert (Hfrom : "Under Review" ∉ Js.inherited)
    by (apply statuses_not_inherited; do 3 right; left).
  assert (Hto : "Closed" ∉ Js.inherited)
    by (apply statuses_not_inherited; do 4 right; left).
  split; [exact Hfrom |]. split; [exact Hto |].
  destruct (available_iff_allowed "Under Review" "Closed" "admin" Hfrom Hto)
    as [Hiff _].
  apply Hiff. reflexivity.
Defined.

(** X2: managers and admins are interchangeable for the policy, and no
    transition is open both to an analyst and to a manager or admin. *)
Theorem manager_admin_interchangeable (from to : string) :
  (WorkflowService.valid (WorkflowService.canTransition from to "manager")
   = WorkflowService.valid (WorkflowService.canTransition from to "admin"))
  ∧ WorkflowService.getAvailableTransitions from "manager"
    = WorkflowService.getAvailableTransitions from "admin"
  ∧ ¬ (WorkflowService.valid
         (WorkflowService.canTransition from to "analyst") = true
       ∧ WorkflowService.valid
           (WorkflowService.canTransition from to "manager") = true).
Proof.
  split; [| split].
  - destruct (WorkflowService.valid
                (WorkflowService.canTransition from to "manager")) eqn:Hm;
    destruct (WorkflowService.valid
                (WorkflowService.canTransition from to "admin")) eqn:Ha;
      try reflexivity.
    + apply canTransition_allowed in Hm.
      rewrite !elem_of_cons, elem_of_nil in Hm.
      assert (Ha' : WorkflowService.valid
                (WorkflowService.canTransition from to "admin") = true).
      { apply canTransition_allowed. rewrite !elem_of_cons, elem_of_nil.
        repeat destruct Hm as [Hm | Hm]; try done;
          injection Hm as -> ->; tauto. }
      congruence.
    + apply canTransition_allowed in Ha.
      rewrite !elem_of_cons, elem_of_nil in Ha.
      assert (Hm' : WorkflowService.valid
                (WorkflowService.canTransition from to "manager") = true).
      { apply canTransition_allowed. rewrite !elem_of_cons, elem_of_nil.
        repeat destruct Ha as [Ha | Ha]; try done;
          injection Ha as -> ->; tauto. }
      congruence.
  - unfold WorkflowService.getAvailableTransitions.
    destruct (Js.prop TRANSITIONS from) as [ds |] eqn:Hds; [| done].
    apply prop_Some_elem_of in Hds. unfold TRANSITIONS in Hds.
    rewrite !elem_of_cons, elem_of_nil in Hds.
    repeat destruct Hds as [Hds | Hds]; try done;
      injection Hds as -> ->; reflexivity.
  - intros [Han Hm]. apply canTransition_allowed in Han, Hm.
    rewrite !elem_of_cons, elem_of_nil in Han, Hm.
    repeat destruct Han as [Han | Han]; try done;
      injection Han as -> ->;
      repeat destruct Hm as [Hm | Hm]; done.
Qed.

(** X3: a role other than analyst, manager and admin (a requester, say) is
    allowed no transition between names that are not inherited from
    [Object.prototype], and is offered none. *)
Theorem other_roles_never_allowed (from to role : string) :
  from ∉ Js.inherited -> to ∉ Js.inherited ->
  role ∉ ["analyst"; "manager"; "admin"] ->
  WorkflowService.valid (WorkflowService.canTransition from to role) = false
  ∧ WorkflowService.getAvailableTransitions from role = [].
Proof.
  intros _ _ Hrole.
  assert (Hnever : ∀ t, WorkflowService.valid
            (WorkflowService.canTransition from t role) = false).
  { intros t. destruct (WorkflowService.valid _) eqn:Hv; [| done].
    apply canTransition_allowed in Hv.
    rewrite !elem_of_cons, elem_of_nil in Hv.
    rewrite !not_elem_of_cons in Hrole. destruct Hrole as (H1 & H2 & H3 & _).
    repeat destruct Hv as [Hv | Hv]; try done; injection Hv as -> -> ->; done. }
  split; [apply Hnever |].
  destruct (WorkflowService.getAvailableTransitions from role) as [| t l] eqn:Hl;
    [done |].
  assert (Hin : t ∈ WorkflowService.getAvailableTransitions from role)
    by (rewrite Hl; left).
  apply available_lookup, canTransition_valid in Hin.
  by rewrite Hnever in Hin.
Qed.

(** A requester is such a role. *)
Lemma other_roles_never_allowed_witness :
  ("Created" ∉ Js.inherited) ∧ ("Assigned" ∉ Js.inherited)
  ∧ ("requester" ∉ ["analyst"; "manager"; "admin"])
  ∧ WorkflowService.getAvailableTransitions "Created" "requester" = [].
Proof.
  assert (Hfrom : "Created" ∉ Js.inherited)
    by (apply statuses_not_inherited; left).
  assert (Hto : "Assigned" ∉ Js.inherited)
    by (apply statuses_not_inherited; right; left).
  assert (H : "requester" ∉ ["analyst"; "manager"; "admin"]).
  { rewrite !not_elem_of_cons. repeat split; try discriminate.
    apply not_elem_of_nil. }
  split; [exact Hfrom |]. split; [exact Hto |]. split; [exact H |].
  exact (proj2 (other_roles_never_allowed "Created" "Assigned" "requester"
                  Hfrom Hto H)).
Defined.

(** X4: a transition that is allowed between names that are not inherited
    from [Object.prototype] joins two of the five statuses, never leaves
    Closed, never returns to Created and never stays where it is. *)
Theorem allowed_transition_shape (from to role : string) :
  from ∉ Js.inherited -> to ∉ Js.inherited ->
  WorkflowService.valid (WorkflowService.canTransition from to role) = true ->
  from ∈ WorkflowService.getAllStatuses ∧ to ∈ WorkflowService.getAllStatuses
  ∧ from ≠ "Closed" ∧ to ≠ "Created" ∧ from ≠ to.
Proof.
  intros _ _ Hv. apply canTransition_allowed in Hv.
  rewrite !elem_of_cons, elem_of_nil in Hv.
  unfold WorkflowService.getAllStatuses, STATUS.all, STATUS.CREATED,
    STATUS.ASSIGNED, STATUS.IN_PROGRESS, STATUS.UNDER_REVIEW, STATUS.CLOSED.
  rewrite !elem_of_cons.
  repeat destruct Hv as [Hv | Hv]; try done; injection Hv as -> -> ->;
    repeat split; try discriminate; tauto.
Qed.

(** The rework edge has that shape. *)
Lemma allowed_transition_shape_witness :
  ("Under Review" ∉ Js.inherited) ∧ ("In Progress" ∉ Js.inherited)
  ∧ WorkflowService.valid
      (WorkflowService.canTransition "Under Review" "In Progress" "manager")
    = true
  ∧ "Under Review" ≠ "In Progress".
Proof.
  assert (Hfrom : "Under Review" ∉ Js.inherited)
    by (apply statuses_not_inherited; do 3 right; left).
  assert (Hto : "In Progress" ∉ Js.inherited)
    by (apply statuses_not_inherited; do 2 right; left).
  split; [exact Hfrom |]. split; [exact Hto |]. split; [reflexivity |].
  destruct (allowed_transition_shape "Under Review" "In Progress" "manager"
              Hfrom Hto eq_refl) as (_ & _ & _ & _ & Hne).
  exact Hne.
Defined.

(** X5: [canAssign] holds for exactly the statuses from which a manager is
    offered the move to Assigned. *)
Theorem canAssign_iff_assignable (s : string) :
  WorkflowService.canAssign s = true
  <-> "Assigned" ∈ WorkflowService.getAvailableTransitions s "manager".
Proof.
  unfold WorkflowService.canAssign, STATUS.CREATED.
  split_eqs s "Created".
  - split; [intros _; left | done].
  - split; [done |]. intros Hin. exfalso.
    apply available_lookup, canTransition_valid, canTransition_allowed in Hin.
    apply eqs_neq in E. rewrite !elem_of_cons, elem_of_nil in Hin.
    repeat destruct Hin as [Hin | Hin]; try done; by injection Hin as ->.
Qed.

(** ** More on the requirement validator *)

(** X6: the validator returns at most one message, and the only transition
    the policy allows that it can still refuse is Created to Assigned on a
    case without an assignee. *)
Theorem validator_refuses_only_unassigned (c : Case.row)
    (target role : string) :
  (length (WorkflowService.errors
             (WorkflowService.validateTransitionRequirements c target))
   <= 1)%nat
  ∧ (WorkflowService.valid
       (WorkflowService.canTransition (Case.status c) target role) = true ->
     WorkflowService.req_valid
       (WorkflowService.validateTransitionRequirements c target) = false ->
     Case.status c = "Created" ∧ target = "Assigned"
     ∧ WorkflowService.no_assignee (Case.assigned_to c) = true).
Proof.
  unfold WorkflowService.validateTransitionRequirements, STATUS.ASSIGNED,
    STATUS.CLOSED, STATUS.UNDER_REVIEW.
  split.
  - destruct (Js.eqs target "Assigned") eqn:E1;
      destruct (Js.eqs target "Closed") eqn:E2;
      eqs_hyps; try (subst target; discriminate);
      destruct (WorkflowService.no_assignee _);
      destruct (Js.eqs (Case.status c) "Under Review"); simpl; lia.
  - intros Hv. apply canTransition_allowed in Hv.
    rewrite !elem_of_cons, elem_of_nil in Hv.
    repeat destruct Hv as [Hv | Hv]; try done;
      injection Hv as Hs -> ->; rewrite Hs; simpl;
      destruct (WorkflowService.no_assignee _); simpl; done.
Qed.

(** The manager moves the new case, still unassigned, to Assigned. *)
Lemma validator_refuses_only_unassigned_witness :
  WorkflowService.valid
    (WorkflowService.canTransition (Case.status Example.new_case)
       "Assigned" "manager") = true
  ∧ WorkflowService.no_assignee (Case.assigned_to Example.new_case) = true.
Proof.
  split; [reflexivity |].
  destruct (validator_refuses_only_unassigned Example.new_case "Assigned"
              "manager") as [_ H].
  destruct (H eq_refl eq_refl) as (_ & _ & Hno). exact Hno.
Defined.

(** ** More on the case routes *)

(** What a status request can do to the store, whatever the store rejects:
    nothing, or the one update the policy and the validator let through,
    followed or not by its audit entry. *)
Lemma put_status_effect (e : env) (user : User.row) (id : Z)
    (status : option string) (db : database) :
  let out := run (CasesRoutes.put_status user id status) e db in
  (out.2 = db ∧ Spec.succeeded out.1 = false)
  ∨ ∃ c target,
      status = Some target ∧ target ∈ STATUS.all
      ∧ cases db !! id = Some c
      ∧ WorkflowService.valid
          (WorkflowService.canTransition (Case.status c) target
             (User.role user)) = true
      ∧ WorkflowService.req_valid
          (WorkflowService.validateTransitionRequirements c target) = true
      ∧ faulty e 0 = false ∧ faulty e 1 = false
      ∧ users out.2 = users db
      ∧ cases out.2
        = <[id := Written.transitioned target (sql_now e 1) c]> (cases db)
      ∧ ( (faulty e 2 = true ∧ out.1 = Next
           ∧ case_audit_log out.2 = case_audit_log db)
        ∨ (faulty e 2 = false
           ∧ out.1 = Sent 200
               (CaseResult ("Case transitioned from '" +:+ Case.status c
                            +:+ "' to '" +:+ target +:+ "'")
                  (Some (Written.transitioned target (sql_now e 1) c)))
           ∧ case_audit_log out.2
             = case_audit_log db ++
               [Spec.status_entry id (Case.status c) target (User.id user)
                  (sql_now e 2)])).
Proof.
  intros out. subst out.
  unfold CasesRoutes.put_status, Spec.status_entry, Written.transitioned.
  destruct status as [target |]; [| left; by run_handler].
  destruct (Js.includes STATUS.all target) eqn:Hin; [| left; by run_handler].
  apply includes_elem_of in Hin.
  unfold run, mbind, handler_bind, query, send, AuditService.logStatusChange,
    AuditService.log, query.
  cbn -[WorkflowService.canTransition
        WorkflowService.validateTransitionRequirements].
  destruct (faulty e 0) eqn:F0; [left; by simpl |].
  cbn -[WorkflowService.canTransition
        WorkflowService.validateTransitionRequirements].
  destruct (cases db !! id) as [c |] eqn:Hc; [| left; by simpl].
  destruct (WorkflowService.valid _) eqn:Hv; [| left; by simpl].
  cbn -[WorkflowService.validateTransitionRequirements].
  destruct (WorkflowService.req_valid _) eqn:Hr; [| left; by simpl]. simpl.
  destruct (faulty e 1) eqn:F1; [left; by simpl |]. simpl.
  rewrite (alter_lookup_insert _ _ _ _ Hc), lookup_insert_eq.
  destruct (faulty e 2) eqn:F2; simpl; right; exists c, target;
    (do 4 (split; [done |])); (split; [exact Hr |]);
    (do 3 (split; [done |])); (split; [by destruct c |]);
    [left | right]; by destruct c.
Qed.

(** What an assignment can do to the store. *)
Lemma put_assign_effect (e : env) (user : User.row) (id : Z)
    (assigneeId : option Z) (db : database) :
  let out := run (CasesRoutes.put_assign user id assigneeId) e db in
  (out.2 = db ∧ Spec.succeeded out.1 = false)
  ∨ ∃ c a assignee,
      assigneeId = Some a ∧ User.role user ∈ ["manager"; "admin"]
      ∧ cases db !! id = Some c ∧ users db !! a = Some assignee
      ∧ User.role assignee = "analyst"
      ∧ faulty e 0 = false ∧ faulty e 1 = false ∧ faulty e 2 = false
      ∧ users out.2 = users db
      ∧ cases out.2
        = <[id := Written.assigned a (sql_now e 2) c]> (cases db)
      ∧ ( (faulty e 3 = true ∧ out.1 = Next
           ∧ case_audit_log out.2 = case_audit_log db)
        ∨ (faulty e 3 = false ∧ Case.status c = "Created"
           ∧ faulty e 4 = true ∧ out.1 = Next
           ∧ case_audit_log out.2
             = case_audit_log db ++
               [Spec.assignment_entry id (Case.assigned_to c) a
                  (User.name assignee) (User.id user) (sql_now e 3)])
        ∨ (faulty e 3 = false
           ∧ (Case.status c = "Created" -> faulty e 4 = false)
           ∧ out.1 = Sent 200
               (CaseResult ("Case assigned to " +:+ User.name assignee)
                  (Some (Written.assigned a (sql_now e 2) c)))
           ∧ case_audit_log out.2
             = case_audit_log db ++
               Spec.assignment_entry id (Case.assigned_to c) a
                 (User.name assignee) (User.id user) (sql_now e 3)
               :: (if Js.eqs (Case.status c) "Created"
                   then [Spec.auto_transition_entry id (User.id user)
                           (sql_now e 4)]
                   else []))).
Proof.
  intros out. subst out.
  unfold CasesRoutes.put_assign, Rbac.requireManager, Rbac.requireRole,
    Spec.assignment_entry, Spec.auto_transition_entry, Written.assigned,
    ROLES.MANAGER, ROLES.ADMIN.
  destruct (Js.includes _ (User.role user)) eqn:Hrole;
    [| left; by run_handler].
  apply includes_elem_of in Hrole.
  destruct assigneeId as [a |]; [| left; by run_handler].
  run_handler.
  destruct (faulty e 0) eqn:F0; [left; by simpl |]. simpl.
  destruct (cases db !! id) as [c |] eqn:Hc; [| left; by simpl].
  destruct (faulty e 1) eqn:F1; [left; by simpl |]. simpl.
  destruct (users db !! a) as [assignee |] eqn:Ha; [| left; by simpl].
  destruct (Js.eqs (User.role assignee) _) eqn:Han; [| left; by simpl].
  apply eqs_eq in Han. simpl.
  destruct (faulty e 2) eqn:F2; [left; by simpl |]. simpl.
  rewrite (alter_lookup_insert _ _ _ _ Hc).
  unfold STATUS.CREATED, STATUS.ASSIGNED.
  right. exists c, a, assignee.
  destruct c as [i ci t d cat p s asg cb sla ca ua]. simpl.
  destruct (faulty e 3) eqn:F3; simpl.
  { do 10 (split; [done |]). by left. }
  destruct (Js.eqs s "Created") eqn:Hs; simpl.
  - apply eqs_eq in Hs. subst s. simpl.
    destruct (faulty e 4) eqn:F4; simpl.
    + do 10 (split; [done |]). right; left. done.
    + do 10 (split; [done |]). right; right.
      rewrite lookup_insert_eq, <- app_assoc. done.
  - rewrite eqs_refl. simpl. apply eqs_neq in Hs.
    do 10 (split; [done |]). right; right.
    rewrite lookup_insert_eq. done.
Qed.

(** What an update can do to the store. *)
Lemma put_case_effect (e : env) (user : User.row) (id : Z)
    (body : CasesRoutes.update_body) (db : database) :
  let out := run (CasesRoutes.put_case user id body) e db in
  (out.2 = db ∧ Spec.succeeded out.1 = false)
  ∨ ∃ c,
      CasesRoutes.valid_update body = true ∧ cases db !! id = Some c
      ∧ Written.may_edit user c = true
      ∧ Written.names_a_field body = true
      ∧ faulty e 0 = false ∧ faulty e 1 = false
      ∧ users out.2 = users db
      ∧ cases out.2
        = <[id := Written.edited body (js_now e) (sql_now e 1) c]> (cases db)
      ∧ ( (faulty e 2 = true ∧ out.1 = Next
           ∧ case_audit_log out.2 = case_audit_log db)
        ∨ (faulty e 2 = false
           ∧ out.1 = Sent 200
               (CaseResult "Case updated successfully"
                  (Some (Written.edited body (js_now e) (sql_now e 1) c)))
           ∧ case_audit_log out.2
             = case_audit_log db ++
               [Written.update_entry id body (User.id user) (sql_now e 2)])).
Proof.
  intros out. subst out.
  unfold CasesRoutes.put_case, Written.may_edit, Written.names_a_field,
    Written.edited, Written.update_entry.
  destruct (CasesRoutes.valid_update body) eqn:Hvalid;
    [| left; by run_handler].
  run_handler.
  destruct (faulty e 0) eqn:F0; [left; by simpl |]. simpl.
  destruct (cases db !! id) as [c |] eqn:Hc; [| left; by simpl].
  unfold ROLES.MANAGER, ROLES.ADMIN.
  match goal with
  | |- context [negb ?b] => destruct b eqn:Hedit
  end; [| left; by simpl]. simpl.
  destruct body as [bt bd bc [p |]]; simpl in *.
  - pose proof (SLA_DEFAULTS_hours p) as Hh.
    unfold SLA_DEFAULTS in Hh. simpl in Hh.
    destruct bt, bd, bc; simpl;
      (destruct (faulty e 1) eqn:F1; [left; by simpl |]); simpl;
      rewrite (alter_lookup_insert _ _ _ _ Hc), lookup_insert_eq;
      rewrite setHours_getHours, Hh;
      destruct (faulty e 2) eqn:F2; simpl;
      right; exists c; destruct c; simpl in *;
      (do 8 (split; [done |])); first [by left | by right].
  - destruct bt, bd, bc; simpl; try (left; by simpl);
      (destruct (faulty e 1) eqn:F1; [left; by simpl |]); simpl;
      rewrite (alter_lookup_insert _ _ _ _ Hc), lookup_insert_eq;
      destruct (faulty e 2) eqn:F2; simpl;
      right; exists c; destruct c; simpl in *;
      (do 8 (split; [done |])); first [by left | by right].
Qed.

(** X7: a status request changes the store only for a transition that
    [canTransition] allows to the user's role and whose requirements hold;
    the row then stored carries the requested status. *)
Theorem put_status_changes_only_allowed (e : env) (user : User.row) (id : Z)
    (status : option string) (db : database) :
  (run (CasesRoutes.put_status user id status) e db).2 ≠ db ->
  ∃ c target,
    status = Some target ∧ cases db !! id = Some c
    ∧ WorkflowService.valid
        (WorkflowService.canTransition (Case.status c) target
           (User.role user)) = true
    ∧ WorkflowService.req_valid
        (WorkflowService.validateTransitionRequirements c target) = true
    ∧ cases (run (CasesRoutes.put_status user id status) e db).2 !! id
      = Some (Written.transitioned target (sql_now e 1) c).
Proof.
  intros Hchanged.
  destruct (put_status_effect e user id status db)
    as [[Hsame _] | (c & target & Hst & _ & Hc & Hv & Hr & _ & _ & _ & Hcases & _)];
    [done |].
  exists c, target. do 4 (split; [done |]).
  rewrite Hcases. apply lookup_insert_eq.
Qed.

(** The manager closes the case under review. *)
Lemma put_status_changes_only_allowed_witness :
  (run (CasesRoutes.put_status Example.manager 2 (Some "Closed"))
     Example.healthy Example.store).2 ≠ Example.store
  ∧ WorkflowService.valid
      (WorkflowService.canTransition "Under Review" "Closed" "manager") = true.
Proof.
  assert (H : (run (CasesRoutes.put_status Example.manager 2 (Some "Closed"))
                 Example.healthy Example.store).2 ≠ Example.store).
  { intros H. apply (f_equal case_audit_log) in H. vm_compute in H.
    discriminate H. }
  split; [exact H |].
  destruct (put_status_changes_only_allowed Example.healthy Example.manager 2
              (Some "Closed") Example.store H)
    as (c & target & Hst & Hc & Hv & _).
  injection Hst as <-. injection Hc as <-. exact Hv.
Defined.

(** A status request that passes every check and whose statements go
    through. *)
Lemma put_status_run (e : env) (user : User.row) (id : Z) (target : string)
    (c : Case.row) (db : database) :
  target ∈ STATUS.all -> cases db !! id = Some c ->
  WorkflowService.valid
    (WorkflowService.canTransition (Case.status c) target (User.role user))
  = true ->
  WorkflowService.req_valid
    (WorkflowService.validateTransitionRequirements c target) = true ->
  faulty e 0 = false -> faulty e 1 = false -> faulty e 2 = false ->
  run (CasesRoutes.put_status user id (Some target)) e db
  = (Sent 200
       (CaseResult ("Case transitioned from '" +:+ Case.status c
                    +:+ "' to '" +:+ target +:+ "'")
          (Some (Written.transitioned target (sql_now e 1) c))),
     {| users := users db;
        cases := <[id := Written.transitioned target (sql_now e 1) c]>
                   (cases db);
        case_audit_log :=
          case_audit_log db ++
          [Spec.status_entry id (Case.status c) target (User.id user)
             (sql_now e 2)] |}).
Proof.
  intros Hin Hc Hv Hr F0 F1 F2. apply includes_elem_of in Hin.
  unfold CasesRoutes.put_status. rewrite Hin.
  unfold run, mbind, handler_bind, query, send, AuditService.logStatusChange,
    AuditService.log, query.
  cbn -[WorkflowService.canTransition
        WorkflowService.validateTransitionRequirements].
  rewrite F0.
  cbn -[WorkflowService.canTransition
        WorkflowService.validateTransitionRequirements].
  rewrite Hc, Hv.
  cbn -[WorkflowService.validateTransitionRequirements].
  rewrite Hr. simpl. rewrite F1. simpl. rewrite F2. simpl.
  rewrite (alter_lookup_insert _ _ _ _ Hc), lookup_insert_eq.
  by destruct c.
Qed.

(** X8: a status request is answered 200 exactly when the status is one of
    the five, the case exists, the policy allows the move to the user's
    role, the requirements hold and the three statements go through; the
    answer then carries the row as it is stored, and one status entry is
    appended. *)
Theorem put_status_succeeds_iff (e : env) (user : User.row) (id : Z)
    (status : option string) (db : database) :
  let out := run (CasesRoutes.put_status user id status) e db in
  (Spec.succeeded out.1 = true
   <-> ∃ c target,
         status = Some target ∧ target ∈ STATUS.all
         ∧ cases db !! id = Some c
         ∧ WorkflowService.valid
             (WorkflowService.canTransition (Case.status c) target
                (User.role user)) = true
         ∧ WorkflowService.req_valid
             (WorkflowService.validateTransitionRequirements c target) = true
         ∧ faulty e 0 = false ∧ faulty e 1 = false ∧ faulty e 2 = false)
  ∧ (Spec.succeeded out.1 = true ->
     ∃ c target,
       status = Some target ∧ cases db !! id = Some c
       ∧ out
         = (Sent 200
              (CaseResult ("Case transitioned from '" +:+ Case.status c
                           +:+ "' to '" +:+ target +:+ "'")
                 (Some (Written.transitioned target (sql_now e 1) c))),
            {| users := users db;
               cases := <[id := Written.transitioned target (sql_now e 1) c]>
                          (cases db);
               case_audit_log :=
                 case_audit_log db ++
                 [Spec.status_entry id (Case.status c) target (User.id user)
                    (sql_now e 2)] |})).
Proof.
  intros out.
  assert (Hsound : Spec.succeeded out.1 = true ->
    ∃ c target,
      status = Some target ∧ target ∈ STATUS.all ∧ cases db !! id = Some c
      ∧ WorkflowService.valid
          (WorkflowService.canTransition (Case.status c) target
             (User.role user)) = true
      ∧ WorkflowService.req_valid
          (WorkflowService.validateTransitionRequirements c target) = true
      ∧ faulty e 0 = false ∧ faulty e 1 = false ∧ faulty e 2 = false).
  { intros Hok.
    destruct (put_status_effect e user id status db)
      as [[_ Hno] | (c & target & Hst & Hin & Hc & Hv & Hr & F0 & F1 & _
                     & _ & Hlog)].
    { fold out in Hno. congruence. }
    fold out in Hlog.
    destruct Hlog as [(_ & Hnext & _) | (F2 & _)].
    { rewrite Hnext in Hok. discriminate Hok. }
    by exists c, target. }
  split; [split; [exact Hsound |] |].
  - intros (c & target & -> & Hin & Hc & Hv & Hr & F0 & F1 & F2).
    subst out. by rewrite (put_status_run e user id target c db).
  - intros Hok.
    destruct (Hsound Hok) as (c & target & -> & Hin & Hc & Hv & Hr & F0 & F1 & F2).
    exists c, target. do 2 (split; [done |]).
    subst out. by apply put_status_run.
Qed.

(** The manager closes the case under review. *)
Lemma put_status_succeeds_iff_witness :
  Spec.succeeded
    (run (CasesRoutes.put_status Example.manager 2 (Some "Closed"))
       Example.healthy Example.store).1 = true
  ∧ Case.status <$>
      cases (run (CasesRoutes.put_status Example.manager 2 (Some "Closed"))
               Example.healthy Example.store).2 !! 2
    = Some "Closed".
Proof.
  split; [reflexivity |].
  destruct (put_status_succeeds_iff Example.healthy Example.manager 2
              (Some "Closed") Example.store) as [_ Hresult].
  destruct (Hresult eq_refl) as (c & target & Hst & Hc & Hout).
  injection Hst as <-. injection Hc as <-.
  rewrite Hout. reflexivity.
Defined.

(** X9: the status route does not mark an unassigned case Assigned: a
    manager or admin who asks for it on a Created case without assignee is
    answered 400 with the missing-assignee message, and nothing is
    written. *)
Theorem put_status_unassigned_refused (e : env) (user : User.row) (id : Z)
    (c : Case.row) (db : database) :
  User.role user ∈ ["manager"; "admin"] ->
  cases db !! id = Some c -> Case.status c = "Created" ->
  Case.assigned_to c = None -> faulty e 0 = false ->
  run (CasesRoutes.put_status user id (Some "Assigned")) e db
  = (Sent 400
       (RequirementsNotMet
          ["Case must have an assignee before setting status to Assigned"]),
     db).
Proof.
  intros Hrole Hc Hs Hno F0.
  assert (Hv : WorkflowService.valid
            (WorkflowService.canTransition (Case.status c) "Assigned"
               (User.role user)) = true).
  { apply canTransition_allowed. rewrite Hs.
    rewrite !elem_of_cons, elem_of_nil in Hrole.
    rewrite !elem_of_cons. destruct Hrole as [-> | [-> | []]]; tauto. }
  unfold CasesRoutes.put_status.
  unfold run, mbind, handler_bind, query, send.
  cbn -[WorkflowService.canTransition
        WorkflowService.validateTransitionRequirements].
  rewrite F0.
  cbn -[WorkflowService.canTransition
        WorkflowService.validateTransitionRequirements].
  rewrite Hc, Hv.
  unfold WorkflowService.validateTransitionRequirements.
  rewrite Hno, Hs. reflexivity.
Qed.

(** The manager asks for it on the new case. *)
Lemma put_status_unassigned_refused_witness :
  Case.assigned_to Example.new_case = None
  ∧ (run (CasesRoutes.put_status Example.manager 1 (Some "Assigned"))
       Example.healthy Example.store).2 = Example.store.
Proof.
  split; [reflexivity |].
  rewrite (put_status_unassigned_refused Example.healthy Example.manager 1
             Example.new_case Example.store); try reflexivity.
  left.
Defined.

(** ** What the three writing routes keep *)

(** A store that differs from [db] in one row that was there. *)
Lemma replaced_row_touches_only (id : Z) (c c' : Case.row)
    (db out : database) :
  cases db !! id = Some c -> users out = users db ->
  cases out = <[id := c']> (cases db) ->
  Invariant.touches_only id db out.
Proof.
  intros Hc Hu Hcases. unfold Invariant.touches_only.
  rewrite Hu, Hcases. split; [done |]. split.
  - apply dom_insert_lookup_L. by rewrite Hc.
  - intros j Hj. by apply lookup_insert_ne.
Qed.

Lemma unchanged_touches_only (id : Z) (db : database) :
  Invariant.touches_only id db db.
Proof. by unfold Invariant.touches_only. Qed.

(** A property of rows kept when one row is replaced by one that has it. *)
Lemma replaced_row_keeps (P : Case.row -> Prop) (id : Z) (c' : Case.row)
    (m : gmap Z Case.row) :
  (∀ j c, m !! j = Some c -> P c) -> P c' ->
  ∀ j c, <[id := c']> m !! j = Some c -> P c.
Proof.
  intros Hall Hc' j c. rewrite lookup_insert. case_decide.
  - by intros [= <-].
  - apply Hall.
Qed.

(** X10: none of the three writing routes touches a user, another case, or
    the set of cases: a request about case [id] leaves every other case as
    it was and neither creates nor removes a case. *)
Theorem writing_routes_touch_one_case (e : env) (user : User.row) (id : Z)
    (db : database) :
  (∀ status,
     Invariant.touches_only id db
       (run (CasesRoutes.put_status user id status) e db).2)
  ∧ (∀ assigneeId,
       Invariant.touches_only id db
         (run (CasesRoutes.put_assign user id assigneeId) e db).2)
  ∧ (∀ body,
       Invariant.touches_only id db
         (run (CasesRoutes.put_case user id body) e db).2).
Proof.
  split; [| split].
  - intros status.
    destruct (put_status_effect e user id status db)
      as [[-> _] | (c & target & _ & _ & Hc & _ & _ & _ & _ & Hu & Hcases & _)].
    + apply unchanged_touches_only.
    + by eapply replaced_row_touches_only.
  - intros assigneeId.
    destruct (put_assign_effect e user id assigneeId db)
      as [[-> _] | (c & a & asg & _ & _ & Hc & _ & _ & _ & _ & _ & Hu
                    & Hcases & _)].
    + apply unchanged_touches_only.
    + by eapply replaced_row_touches_only.
  - intros body.
    destruct (put_case_effect e user id body db)
      as [[-> _] | (c & _ & Hc & _ & _ & _ & _ & Hu & Hcases & _)].
    + apply unchanged_touches_only.
    + by eapply replaced_row_touches_only.
Qed.

(** X11: the audit log only grows: each writing route keeps every entry
    there was, in place, and appends at most one entry (two for an
    assignment), each about the case of the request and in the name of the
    user who made it. *)
Theorem writing_routes_append_audit (e : env) (user : User.row) (id : Z)
    (db : database) :
  (∀ status,
     Invariant.appends_at_most 1 id (User.id user) db
       (run (CasesRoutes.put_status user id status) e db).2)
  ∧ (∀ assigneeId,
       Invariant.appends_at_most 2 id (User.id user) db
         (run (CasesRoutes.put_assign user id assigneeId) e db).2)
  ∧ (∀ body,
       Invariant.appends_at_most 1 id (User.id user) db
         (run (CasesRoutes.put_case user id body) e db).2).
Proof.
  assert (Hnone : ∀ n out, case_audit_log out = case_audit_log db ->
            Invariant.appends_at_most n id (User.id user) db out).
  { intros n out Hlog. exists []. rewrite Hlog, app_nil_r.
    split; [done |]. split; [simpl; lia | constructor]. }
  split; [| split].
  - intros status.
    destruct (put_status_effect e user id status db)
      as [[-> _] | (c & target & _ & _ & _ & _ & _ & _ & _ & _ & _ & Hlog)];
      [by apply Hnone |].
    destruct Hlog as [(_ & _ & Hlog) | (_ & _ & Hlog)]; [by apply Hnone |].
    eexists. split; [exact Hlog |]. split; [simpl; lia |].
    by repeat constructor.
  - intros assigneeId.
    destruct (put_assign_effect e user id assigneeId db)
      as [[-> _] | (c & a & asg & _ & _ & _ & _ & _ & _ & _ & _ & _ & _ & Hlog)];
      [by apply Hnone |].
    destruct Hlog as [(_ & _ & Hlog) | [(_ & _ & _ & _ & Hlog)
                                       | (_ & _ & _ & Hlog)]];
      [by apply Hnone | |].
    + eexists. split; [exact Hlog |]. split; [simpl; lia |].
      by repeat constructor.
    + eexists. split; [exact Hlog |].
      destruct (Js.eqs (Case.status c) "Created");
        (split; [simpl; lia | by repeat constructor]).
  - intros body.
    destruct (put_case_effect e user id body db)
      as [[-> _] | (c & _ & _ & _ & _ & _ & _ & _ & _ & Hlog)];
      [by apply Hnone |].
    destruct Hlog as [(_ & _ & Hlog) | (_ & _ & Hlog)]; [by apply Hnone |].
    eexists. split; [exact Hlog |]. split; [simpl; lia |].
    by repeat constructor.
Qed.

(** X12: the writing routes keep every case in one of the five statuses. *)
Theorem writing_routes_keep_statuses_known (e : env) (user : User.row)
    (id : Z) (db : database) :
  Invariant.statuses_known db ->
  (∀ status,
     Invariant.statuses_known
       (run (CasesRoutes.put_status user id status) e db).2)
  ∧ (∀ assigneeId,
       Invariant.statuses_known
         (run (CasesRoutes.put_assign user id assigneeId) e db).2)
  ∧ (∀ body,
       Invariant.statuses_known
         (run (CasesRoutes.put_case user id body) e db).2).
Proof.
  intros Hknown. unfold Invariant.statuses_known in *.
  split; [| split].
  - intros status.
    destruct (put_status_effect e user id status db)
      as [[-> _] | (c & target & _ & Hin & _ & _ & _ & _ & _ & _ & Hcases & _)];
      [done |].
    rewrite Hcases. by apply replaced_row_keeps.
  - intros assigneeId.
    destruct (put_assign_effect e user id assigneeId db)
      as [[-> _] | (c & a & asg & _ & _ & Hc & _ & _ & _ & _ & _ & _
                    & Hcases & _)]; [done |].
    rewrite Hcases. apply replaced_row_keeps; [done |]. simpl.
    destruct (Js.eqs (Case.status c) "Created");
      [right; left | by eapply Hknown].
  - intros body.
    destruct (put_case_effect e user id body db)
      as [[-> _] | (c & _ & Hc & _ & _ & _ & _ & _ & Hcases & _)]; [done |].
    rewrite Hcases. apply replaced_row_keeps; [done |]. simpl.
    by eapply Hknown.
Qed.

(** The example store has its two cases in known statuses. *)
Lemma writing_routes_keep_statuses_known_witness :
  Invariant.statuses_known Example.store
  ∧ Invariant.statuses_known
      (run (CasesRoutes.put_status Example.manager 2 (Some "Closed"))
         Example.healthy Example.store).2.
Proof.
  assert (H : Invariant.statuses_known Example.store).
  { intros j c. unfold Example.store. simpl.
    rewrite lookup_insert. case_decide.
    - intros [= <-]. left.
    - rewrite lookup_insert. case_decide; [| by rewrite lookup_empty].
      intros [= <-]. do 3 right. left. }
  split; [exact H |].
  apply (writing_routes_keep_statuses_known Example.healthy Example.manager 2
           Example.store H).
Defined.

(** X13: the writing routes keep the rule that a case which has left
    Created has an assignee. *)
Theorem writing_routes_keep_started_assigned (e : env) (user : User.row)
    (id : Z) (db : database) :
  Invariant.started_cases_assigned db ->
  (∀ status,
     Invariant.started_cases_assigned
       (run (CasesRoutes.put_status user id status) e db).2)
  ∧ (∀ assigneeId,
       Invariant.started_cases_assigned
         (run (CasesRoutes.put_assign user id assigneeId) e db).2)
  ∧ (∀ body,
       Invariant.started_cases_assigned
         (run (CasesRoutes.put_case user id body) e db).2).
Proof.
  intros Hinv. unfold Invariant.started_cases_assigned in *.
  split; [| split].
  - intros status.
    destruct (put_status_effect e user id status db)
      as [[-> _] | (c & target & _ & _ & Hc & Hv & Hr & _ & _ & _ & Hcases & _)];
      [done |].
    rewrite Hcases.
    apply (replaced_row_keeps
             (fun c => Case.status c ≠ "Created" -> is_Some (Case.assigned_to c)));
      [done |].
    simpl. intros _.
    destruct (decide (Case.status c = "Created")) as [Hs | Hs];
      [| by eapply Hinv].
    apply canTransition_allowed in Hv. rewrite Hs in Hv.
    rewrite !elem_of_cons, elem_of_nil in Hv.
    assert (Ht : target = "Assigned").
    { repeat destruct Hv as [Hv | Hv]; try done; by injection Hv as <-. }
    subst target.
    unfold WorkflowService.validateTransitionRequirements,
      WorkflowService.no_assignee in Hr.
    destruct (Case.assigned_to c); [done | discriminate Hr].
  - intros assigneeId.
    destruct (put_assign_effect e user id assigneeId db)
      as [[-> _] | (c & a & asg & _ & _ & Hc & _ & _ & _ & _ & _ & _
                    & Hcases & _)]; [done |].
    rewrite Hcases.
    apply (replaced_row_keeps
             (fun c => Case.status c ≠ "Created" -> is_Some (Case.assigned_to c)));
      [done |].
    simpl. by intros _.
  - intros body.
    destruct (put_case_effect e user id body db)
      as [[-> _] | (c & _ & Hc & _ & _ & _ & _ & _ & Hcases & _)]; [done |].
    rewrite Hcases.
    apply (replaced_row_keeps
             (fun c => Case.status c ≠ "Created" -> is_Some (Case.assigned_to c)));
      [done |].
    simpl. by eapply Hinv.
Qed.

(** The example store keeps that rule, and so does closing its case under
    review. *)
Lemma writing_routes_keep_started_assigned_witness :
  Invariant.started_cases_assigned Example.store
  ∧ Invariant.started_cases_assigned
      (run (CasesRoutes.put_status Example.manager 2 (Some "Closed"))
         Example.healthy Example.store).2.
Proof.
  assert (H : Invariant.started_cases_assigned Example.store).
  { intros j c. unfold Example.store. simpl.
    rewrite lookup_insert. case_decide.
    - intros [= <-] Hs. by contradiction Hs.
    - rewrite lookup_insert. case_decide; [| by rewrite lookup_empty].
      intros [= <-] _. by eexists. }
  split; [exact H |].
  apply (writing_routes_keep_started_assigned Example.healthy Example.manager
           2 Example.store H).
Defined.

(** An update that passes every check and whose statements go through. *)
Lemma put_case_run (e : env) (user : User.row) (id : Z)
    (body : CasesRoutes.update_body) (c : Case.row) (db : database) :
  CasesRoutes.valid_update body = true -> cases db !! id = Some c ->
  Written.may_edit user c = true -> Written.names_a_field body = true ->
  faulty e 0 = false -> faulty e 1 = false -> faulty e 2 = false ->
  run (CasesRoutes.put_case user id body) e db
  = (Sent 200
       (CaseResult "Case updated successfully"
          (Some (Written.edited body (js_now e) (sql_now e 1) c))),
     {| users := users db;
        cases := <[id := Written.edited body (js_now e) (sql_now e 1) c]>
                   (cases db);
        case_audit_log :=
          case_audit_log db ++
          [Written.update_entry id body (User.id user) (sql_now e 2)] |}).
Proof.
  intros Hvalid Hc Hedit Hnames F0 F1 F2.
  destruct (put_case_effect e user id body db)
    as [[Hsame Hno] | (c' & _ & Hc' & _ & _ & _ & _ & Hu & Hcases & Hlog)].
  - exfalso. revert Hno.
    unfold CasesRoutes.put_case, Written.may_edit, Written.names_a_field
      in *.
    rewrite Hvalid. run_handler. rewrite F0. simpl. rewrite Hc.
    unfold ROLES.MANAGER, ROLES.ADMIN. simpl in Hedit. rewrite Hedit. simpl.
    destruct body as [[t |] [d |] [ct |] [p |]]; simpl in *;
      try discriminate Hnames; rewrite F1; simpl; rewrite F2; simpl;
      discriminate.
  - rewrite Hc in Hc'. injection Hc' as <-.
    destruct Hlog as [(F2' & _) | (_ & Hsent & Hlog)]; [congruence |].
    destruct (run _ e db) as [o [u cs l]]. simpl in *. by subst.
Qed.

(** X14: an update never changes the identity, the status, the assignee,
    the creator or the creation time of a case, and one that names no
    priority leaves the priority and the due time alone. *)
Theorem put_case_keeps_lifecycle (e : env) (user : User.row) (id : Z)
    (body : CasesRoutes.update_body) (c : Case.row) (db : database) :
  cases db !! id = Some c ->
  ∃ c',
    cases (run (CasesRoutes.put_case user id body) e db).2 !! id = Some c'
    ∧ Case.id c' = Case.id c ∧ Case.case_id c' = Case.case_id c
    ∧ Case.status c' = Case.status c
    ∧ Case.assigned_to c' = Case.assigned_to c
    ∧ Case.created_by c' = Case.created_by c
    ∧ Case.created_at c' = Case.created_at c
    ∧ (CasesRoutes.priority body = None ->
       Case.priority c' = Case.priority c
       ∧ Case.sla_due_at c' = Case.sla_due_at c).
Proof.
  intros Hc.
  destruct (put_case_effect e user id body db)
    as [[-> _] | (c0 & _ & Hc0 & _ & _ & _ & _ & _ & Hcases & _)].
  - by exists c.
  - rewrite Hc in Hc0. injection Hc0 as <-.
    exists (Written.edited body (js_now e) (sql_now e 1) c).
    rewrite Hcases, lookup_insert_eq. simpl.
    do 7 (split; [done |]). by intros ->.
Qed.

(** The manager retitles the case under review: it stays under review. *)
Lemma put_case_keeps_lifecycle_witness :
  cases Example.store !! 2 = Some Example.review_case
  ∧ ∃ c',
      cases (run (CasesRoutes.put_case Example.manager 2
                    (CasesRoutes.UpdateBody (Some "Payroll") None None None))
               Example.healthy Example.store).2 !! 2 = Some c'
      ∧ Case.status c' = "Under Review".
Proof.
  split; [reflexivity |].
  destruct (put_case_keeps_lifecycle Example.healthy Example.manager 2
              (CasesRoutes.UpdateBody (Some "Payroll") None None None)
              Example.review_case Example.store eq_refl)
    as (c' & Hstored & _ & _ & Hstatus & _).
  exists c'. split; [exact Hstored | exact Hstatus].
Defined.

(** X15: an update whose title, if it names one, is of ASCII characters is
    answered 200 exactly when its fields are valid, the case exists, the
    user is its creator, its assignee, a manager or an admin, at least one
    field is named and the three statements go through; the answer then
    carries the row as it is stored, and one update entry is appended. *)
Theorem put_case_succeeds_iff (e : env) (user : User.row) (id : Z)
    (body : CasesRoutes.update_body) (db : database) :
  Written.plain_title body ->
  let out := run (CasesRoutes.put_case user id body) e db in
  (Spec.succeeded out.1 = true
   <-> ∃ c,
         CasesRoutes.valid_update body = true ∧ cases db !! id = Some c
         ∧ Written.may_edit user c = true
         ∧ Written.names_a_field body = true
         ∧ faulty e 0 = false ∧ faulty e 1 = false ∧ faulty e 2 = false)
  ∧ (Spec.succeeded out.1 = true ->
     ∃ c,
       cases db !! id = Some c
       ∧ out
         = (Sent 200
              (CaseResult "Case updated successfully"
                 (Some (Written.edited body (js_now e) (sql_now e 1) c))),
            {| users := users db;
               cases := <[id := Written.edited body (js_now e) (sql_now e 1) c]>
                          (cases db);
               case_audit_log :=
                 case_audit_log db ++
                 [Written.update_entry id body (User.id user)
                    (sql_now e 2)] |})).
Proof.
  intros _ out.
  assert (Hsound : Spec.succeeded out.1 = true ->
    ∃ c, CasesRoutes.valid_update body = true ∧ cases db !! id = Some c
         ∧ Written.may_edit user c = true
         ∧ Written.names_a_field body = true
         ∧ faulty e 0 = false ∧ faulty e 1 = false ∧ faulty e 2 = false).
  { intros Hok.
    destruct (put_case_effect e user id body db)
      as [[_ Hno] | (c & Hvalid & Hc & Hedit & Hnames & F0 & F1 & _ & _
                     & Hlog)].
    { fold out in Hno. congruence. }
    fold out in Hlog.
    destruct Hlog as [(_ & Hnext & _) | (F2 & _)].
    { rewrite Hnext in Hok. discriminate Hok. }
    by exists c. }
  split; [split; [exact Hsound |] |].
  - intros (c & Hvalid & Hc & Hedit & Hnames & F0 & F1 & F2).
    subst out. by rewrite (put_case_run e user id body c db).
  - intros Hok.
    destruct (Hsound Hok) as (c & Hvalid & Hc & Hedit & Hnames & F0 & F1 & F2).
    exists c. split; [done |]. subst out. by apply put_case_run.
Qed.

(** The manager gives the new case another title. *)
Lemma put_case_succeeds_iff_witness :
  Written.plain_title MoreExamples.retitled
  ∧ Spec.succeeded
      (run (CasesRoutes.put_case Example.manager 1 MoreExamples.retitled)
         Example.healthy Example.store).1 = true
  ∧ length (case_audit_log
              (run (CasesRoutes.put_case Example.manager 1
                      MoreExamples.retitled)
                 Example.healthy Example.store).2) = 1%nat.
Proof.
  assert (Hplain : Written.plain_title MoreExamples.retitled).
  { intros t Ht. injection Ht as <-. reflexivity. }
  split; [exact Hplain |]. split; [reflexivity |].
  destruct (put_case_succeeds_iff Example.healthy Example.manager 1
              MoreExamples.retitled Example.store Hplain) as [_ Hresult].
  destruct (Hresult eq_refl) as (c & Hc & Hout).
  rewrite Hout. reflexivity.
Defined.

(** X16: an assignment is answered 200 exactly when the user is a manager
    or an admin, an assignee is named who exists and is an analyst, the case
    exists, and the statements go through (five for a Created case, four
    otherwise); the answer then carries the row as it is stored. *)
Theorem put_assign_succeeds_iff (e : env) (user : User.row) (id : Z)
    (assigneeId : option Z) (db : database) :
  let out := run (CasesRoutes.put_assign user id assigneeId) e db in
  (Spec.succeeded out.1 = true
   <-> ∃ c a assignee,
         assigneeId = Some a ∧ User.role user ∈ ["manager"; "admin"]
         ∧ cases db !! id = Some c ∧ users db !! a = Some assignee
         ∧ User.role assignee = "analyst"
         ∧ ∀ n, (n < if Js.eqs (Case.status c) "Created" then 5 else 4)%nat ->
                faulty e n = false)
  ∧ (Spec.succeeded out.1 = true ->
     ∃ c a assignee,
       assigneeId = Some a ∧ cases db !! id = Some c
       ∧ users db !! a = Some assignee
       ∧ out.1 = Sent 200
           (CaseResult ("Case assigned to " +:+ User.name assignee)
              (Some (Written.assigned a (sql_now e 2) c)))
       ∧ cases out.2 !! id = Some (Written.assigned a (sql_now e 2) c)).
Proof.
  intros out.
  assert (Hsound : Spec.succeeded out.1 = true ->
    ∃ c a assignee,
      assigneeId = Some a ∧ User.role user ∈ ["manager"; "admin"]
      ∧ cases db !! id = Some c ∧ users db !! a = Some assignee
      ∧ User.role assignee = "analyst"
      ∧ (∀ n, (n < if Js.eqs (Case.status c) "Created" then 5 else 4)%nat ->
              faulty e n = false)
      ∧ out.1 = Sent 200
          (CaseResult ("Case assigned to " +:+ User.name assignee)
             (Some (Written.assigned a (sql_now e 2) c)))
      ∧ cases out.2 !! id = Some (Written.assigned a (sql_now e 2) c)).
  { intros Hok.
    destruct (put_assign_effect e user id assigneeId db)
      as [[_ Hno] | (c & a & asg & Hid & Hrole & Hc & Ha & Han & F0 & F1 & F2
                     & _ & Hcases & Hlog)].
    { fold out in Hno. congruence. }
    fold out in Hlog, Hcases.
    destruct Hlog as [(_ & Hnext & _) | [(_ & _ & _ & Hnext & _)
                                        | (F3 & F4 & Hsent & _)]];
      try (rewrite Hnext in Hok; discriminate Hok).
    exists c, a, asg. do 5 (split; [done |]). split.
    - intros n Hn.
      destruct (Js.eqs (Case.status c) "Created") eqn:Hs.
      + apply eqs_eq in Hs. specialize (F4 Hs).
        destruct n as [| [| [| [| [| n]]]]]; try done; lia.
      + destruct n as [| [| [| [| n]]]]; try done; lia.
    - split; [done |]. rewrite Hcases. apply lookup_insert_eq. }
  split; [split |].
  - intros Hok.
    destruct (Hsound Hok) as (c & a & asg & ? & ? & ? & ? & ? & ? & _).
    by exists c, a, asg.
  - intros (c & a & asg & -> & Hrole & Hc & Ha & Han & Hok).
    subst out.
    by rewrite (put_assign_run e user asg id a c db Hrole Ha Han Hc Hok).
  - intros Hok.
    destruct (Hsound Hok) as (c & a & asg & ? & ? & ? & ? & ? & ? & ? & ?).
    by exists c, a, asg.
Qed.

(** The manager assigns the new case to Ann. *)
Lemma put_assign_succeeds_iff_witness :
  Spec.succeeded
    (run (CasesRoutes.put_assign Example.manager 1 (Some 3))
       Example.healthy Example.store).1 = true
  ∧ Case.assigned_to <$>
      cases (run (CasesRoutes.put_assign Example.manager 1 (Some 3))
               Example.healthy Example.store).2 !! 1
    = Some (Some 3).
Proof.
  split; [reflexivity |].
  destruct (put_assign_succeeds_iff Example.healthy Example.manager 1
              (Some 3) Example.store) as [_ Hresult].
  destruct (Hresult eq_refl) as (c & a & asg & Hid & Hc & _ & _ & Hstored).
  injection Hid as <-. injection Hc as <-.
  rewrite Hstored. reflexivity.
Defined.

(** ** Requests one after the other *)

(** X17: a second assignment of a case, whatever its status was before the
    first, leaves the status the first one left and appends exactly one
    entry, which records the first assignee as the previous one. *)
Theorem put_assign_twice (e1 e2 : env) (user1 user2 first second : User.row)
    (id a1 a2 : Z) (c : Case.row) (db : database) :
  User.role user1 ∈ ["manager"; "admin"] ->
  User.role user2 ∈ ["manager"; "admin"] ->
  users db !! a1 = Some first -> User.role first = "analyst" ->
  users db !! a2 = Some second -> User.role second = "analyst" ->
  cases db !! id = Some c ->
  (∀ n, (n < 5)%nat -> faulty e1 n = false) ->
  (∀ n, (n < 4)%nat -> faulty e2 n = false) ->
  let db1 := (run (CasesRoutes.put_assign user1 id (Some a1)) e1 db).2 in
  let db2 := (run (CasesRoutes.put_assign user2 id (Some a2)) e2 db1).2 in
  case_audit_log db2
  = case_audit_log db1 ++
    [Spec.assignment_entry id (Some a1) a2 (User.name second)
       (User.id user2) (sql_now e2 3)]
  ∧ ∃ c1 c2,
      cases db1 !! id = Some c1 ∧ cases db2 !! id = Some c2
      ∧ Case.status c2 = Case.status c1 ∧ Case.status c1 ≠ "Created"
      ∧ Case.assigned_to c2 = Some a2.
Proof.
  intros Hr1 Hr2 Ha1 Han1 Ha2 Han2 Hc Hok1 Hok2 db1 db2.
  assert (Hok1' : ∀ n, (n < if Js.eqs (Case.status c) "Created"
                            then 5 else 4)%nat -> faulty e1 n = false).
  { intros n Hn. apply Hok1. destruct (Js.eqs _ _); lia. }
  pose proof (put_assign_run e1 user1 first id a1 c db Hr1 Ha1 Han1 Hc Hok1')
    as Hrun1.
  simpl in Hrun1.
  set (c1 := Sql.assign (sql_now e1 2)
               (Sql.assign (sql_now e1 2)
                  (Sql.assign (sql_now e1 2) c (Sql.assigned_to_eq a1))
                  (Sql.status_eq (if Js.eqs (Case.status c) "Created"
                                  then "Assigned" else Case.status c)))
               Sql.updated_at_now) in *.
  assert (Hdb1 : cases db1 !! id = Some c1 ∧ users db1 = users db).
  { subst db1. rewrite Hrun1. simpl. split; [apply lookup_insert_eq | done]. }
  destruct Hdb1 as [Hc1 Hu1].
  assert (Hfacts : Case.status c1 ≠ "Created"
                   ∧ Case.assigned_to c1 = Some a1).
  { subst c1. destruct c as [i ci t d cat p s asg cb sla ca ua]. simpl.
    split; [| done].
    destruct (Js.eqs s "Created") eqn:Hs; [discriminate |].
    by apply eqs_neq. }
  destruct Hfacts as [Hs1 Hasg1].
  assert (Hok2' : ∀ n, (n < if Js.eqs (Case.status c1) "Created"
                            then 5 else 4)%nat -> faulty e2 n = false).
  { intros n Hn. apply Hok2. apply eqs_neq in Hs1. by rewrite Hs1 in Hn. }
  rewrite <- Hu1 in Ha2.
  pose proof (put_assign_run e2 user2 second id a2 c1 db1 Hr2 Ha2 Han2 Hc1
                Hok2') as Hrun2.
  simpl in Hrun2. apply eqs_neq in Hs1 as Hs1'. rewrite Hs1' in Hrun2.
  subst db2. rewrite Hrun2. simpl. rewrite Hasg1. split; [done |].
  eexists c1, _. split; [done |]. split; [apply lookup_insert_eq |].
  by destruct c1.
Qed.

(** The manager gives the new case to Ann and then to Ben. *)
Lemma put_assign_twice_witness :
  cases Example.store !! 1 = Some Example.new_case
  ∧ length (case_audit_log
              (run (CasesRoutes.put_assign Example.manager 1 (Some 4))
                 Example.healthy
                 (run (CasesRoutes.put_assign Example.manager 1 (Some 3))
                    Example.healthy Example.store).2).2) = 3%nat.
Proof.
  split; [reflexivity |].
  assert (Hrole : User.role Example.manager ∈ ["manager"; "admin"]) by left.
  destruct (put_assign_twice Example.healthy Example.healthy Example.manager
              Example.manager Example.analyst Example.second_analyst 1 3 4
              Example.new_case Example.store Hrole Hrole eq_refl eq_refl
              eq_refl eq_refl eq_refl (fun _ _ => eq_refl)
              (fun _ _ => eq_refl)) as [Hlog _].
  rewrite Hlog. reflexivity.
Defined.

(** X18: the status route looks at the role of the user and at nothing
    else about them: two users with the same role get the same answer and
    leave the same cases behind, so an analyst who is not the assignee of a
    case advances it like the one who is. *)
Theorem put_status_by_role_only (e : env) (u1 u2 : User.row) (id : Z)
    (status : option string) (db : database) :
  User.role u1 = User.role u2 ->
  (run (CasesRoutes.put_status u1 id status) e db).1
  = (run (CasesRoutes.put_status u2 id status) e db).1
  ∧ cases (run (CasesRoutes.put_status u1 id status) e db).2
    = cases (run (CasesRoutes.put_status u2 id status) e db).2.
Proof.
  intros Hrole. unfold CasesRoutes.put_status. rewrite Hrole.
  destruct status as [target |]; [| done].
  destruct (Js.includes STATUS.all target); [| done].
  unfold run, mbind, handler_bind, query, send, AuditService.logStatusChange,
    AuditService.log, query.
  cbn -[WorkflowService.canTransition
        WorkflowService.validateTransitionRequirements].
  destruct (faulty e 0); [done |].
  cbn -[WorkflowService.canTransition
        WorkflowService.validateTransitionRequirements].
  destruct (cases db !! id) as [c |]; [| done].
  destruct (WorkflowService.valid _); [| done].
  cbn -[WorkflowService.validateTransitionRequirements].
  destruct (WorkflowService.req_valid _); [| done]. simpl.
  destruct (faulty e 1); [done |]. simpl.
  destruct (faulty e 2); done.
Qed.

(** Ben, who is not the assignee, and Ann, who is. *)
Lemma put_status_by_role_only_witness :
  User.role Example.analyst = User.role Example.second_analyst
  ∧ cases (run (CasesRoutes.put_status Example.second_analyst 2
                  (Some "In Progress")) Example.healthy Example.store).2
    = cases (run (CasesRoutes.put_status Example.analyst 2
                    (Some "In Progress")) Example.healthy Example.store).2.
Proof.
  split; [reflexivity |].
  exact (proj2 (put_status_by_role_only Example.healthy Example.second_analyst
                  Example.analyst 2 (Some "In Progress") Example.store
                  eq_refl)).
Defined.

(** ** More on the SLA clock *)

(** The status column without a due time. *)
Lemma sla_status_undated (now : Z) (c : Case.row) :
  Case.sla_due_at c = None ->
  Sla.sla_status now c
  = if Js.eqs (Case.status c) "Closed" then "closed" else "on_track".
Proof.
  intros Hdue. unfold Sla.sla_status, Sla.sql_lt. rewrite Hdue.
  rewrite !andb_false_r. by destruct (Js.eqs _ _).
Qed.

(** X19: a case stored without a due time is never overdue or at risk: the
    list of cases shows it as on track (as closed when it is Closed), and
    the breach list of the dashboard leaves it out. *)
Theorem undated_case_on_track (now : Z) (c : Case.row) :
  Case.sla_due_at c = None ->
  Dashboard.sla_breaches_status now c = None
  ∧ (Case.status c = "Closed" -> Sla.sla_status now c = "closed")
  ∧ (Case.status c ≠ "Closed" -> Sla.sla_status now c = "on_track").
Proof.
  intros Hdue. rewrite (sla_status_undated now c Hdue).
  split; [| split].
  - unfold Dashboard.sla_breaches_status, Dashboard.listed, Sla.sql_lt.
    by rewrite Hdue, andb_false_r.
  - by intros ->.
  - intros Hs. apply eqs_neq in Hs. by rewrite Hs.
Qed.

Lemma undated_case_on_track_witness :
  Case.sla_due_at MoreExamples.undated_case = None
  ∧ Sla.sla_status 7200000 MoreExamples.undated_case = "on_track".
Proof.
  split; [reflexivity |].
  destruct (undated_case_on_track 7200000 MoreExamples.undated_case eq_refl)
    as (_ & _ & Hopen).
  apply Hopen. discriminate.
Defined.

(** X20: urgency never eases as time passes: a case that is overdue stays
    overdue, a case at risk stays at risk or becomes overdue, and a case is
    listed as closed at one time exactly when it is at another. *)
Theorem sla_status_never_eases (now later : Z) (c : Case.row) :
  now <= later ->
  (Sla.sla_status now c = "overdue" -> Sla.sla_status later c = "overdue")
  ∧ (Sla.sla_status now c = "at_risk" ->
     Sla.sla_status later c = "at_risk" ∨ Sla.sla_status later c = "overdue")
  ∧ (Sla.sla_status later c = "on_track" -> Sla.sla_status now c = "on_track")
  ∧ (Sla.sla_status now c = "closed" <-> Sla.sla_status later c = "closed").
Proof.
  intros Hle.
  destruct (Case.sla_due_at c) as [due |] eqn:Hdue.
  - rewrite !(sla_status_window _ due c Hdue).
    destruct (Js.eqs (Case.status c) "Closed"); [by repeat split |].
    destruct (Spec.risk_window (Case.priority c)) as [w |];
      repeat match goal with
             | |- context [?a <? ?b] => destruct (Z.ltb_spec a b)
             end;
      try lia; repeat split; intros; try discriminate; auto.
  - rewrite !(sla_status_undated _ c Hdue).
    destruct (Js.eqs (Case.status c) "Closed"); by repeat split.
Qed.

(** The Critical case under review, an hour in and an hour and a half in. *)
Lemma sla_status_never_eases_witness :
  3600000 <= 5400001
  ∧ Sla.sla_status 5400001 Example.review_case = "overdue".
Proof.
  assert (H : 3600000 <= 5400001) by lia.
  split; [exact H |].
  destruct (sla_status_never_eases 3600000 5400001 Example.review_case H)
    as (_ & Hrisk & _).
  destruct (Hrisk eq_refl) as [Hr | Ho]; [discriminate Hr | exact Ho].
Defined.

(** X21: the list and the breach dashboard agree on what is past due
    ("overdue" there is "breached" here) and differ on what is at risk: the
    list warns 1, 2, 6 or 12 hours ahead by priority, the dashboard 4 hours
    ahead for all.  So a Critical or High case at risk on the list is at
    risk on the dashboard, and a Medium or Low case at risk on the dashboard
    is at risk on the list. *)
Theorem list_and_dashboard_urgency (now : Z) (c : Case.row) :
  Case.status c ≠ "Closed" ->
  (Sla.sla_status now c = "overdue" <-> Sla.breach_status now c = "breached")
  ∧ (Case.priority c ∈ ["Critical"; "High"] ->
     Sla.sla_status now c = "at_risk" -> Sla.breach_status now c = "at_risk")
  ∧ (Case.priority c ∈ ["Medium"; "Low"] ->
     Sla.breach_status now c = "at_risk" -> Sla.sla_status now c = "at_risk").
Proof.
  intros Hopen. apply eqs_neq in Hopen.
  destruct (Case.sla_due_at c) as [due |] eqn:Hdue.
  - rewrite (sla_status_window now due c Hdue), Hopen.
    unfold Sla.breach_status, Sla.sql_lt, Sla.hours, Date.ms_per_hour.
    rewrite Hdue.
    split; [| split].
    + destruct (Z.ltb_spec due now); [done |].
      destruct (Spec.risk_window _);
        repeat match goal with
               | |- context [?a <? ?b] => destruct (a <? b)
               end; done.
    + rewrite !elem_of_cons, elem_of_nil. intros [-> | [-> | []]]; simpl;
        destruct (Z.ltb_spec due now); try done;
        match goal with
        | |- context [due <? now + ?w * 3600000] =>
            destruct (Z.ltb_spec due (now + w * 3600000)); [| done]
        end;
        intros _; (destruct (Z.ltb_spec due (now + 4 * 3600000)); [done | lia]).
    + rewrite !elem_of_cons, elem_of_nil. intros [-> | [-> | []]]; simpl;
        destruct (Z.ltb_spec due now); try done;
        (destruct (Z.ltb_spec due (now + 4 * 3600000)); [| done]);
        intros _;
        match goal with
        | |- context [due <? now + ?w * 3600000] =>
            destruct (Z.ltb_spec due (now + w * 3600000)); [done | lia]
        end.
  - rewrite (sla_status_undated now c Hdue), Hopen.
    unfold Sla.breach_status, Sla.sql_lt. rewrite Hdue. by repeat split.
Qed.

(** The Critical case under review, an hour in. *)
Lemma list_and_dashboard_urgency_witness :
  Case.status Example.review_case ≠ "Closed"
  ∧ Sla.breach_status 3600000 Example.review_case = "at_risk".
Proof.
  assert (H : Case.status Example.review_case ≠ "Closed") by discriminate.
  split; [exact H |].
  destruct (list_and_dashboard_urgency 3600000 Example.review_case H)
    as (_ & Hcritical & _).
  apply Hcritical; [left | reflexivity].
Defined.

(** X22: a due time just computed is on track: a case that is not Closed,
    has one of the four priorities and the due time [calculateSlaDueDate]
    gives for it is listed as on track at the time of the computation and
    before. *)
Theorem fresh_due_time_on_track (e : env) (s : database * nat) (now due : Z)
    (c : Case.row) :
  Case.priority c ∈ PRIORITY.all -> Case.status c ≠ "Closed" ->
  (CasesRoutes.calculateSlaDueDate (Case.priority c) e s).1 = Continue due ->
  Case.sla_due_at c = Some due -> now <= js_now e ->
  Sla.sla_status now c = "on_track".
Proof.
  intros Hprio Hopen Hcalc Hdue Hnow.
  rewrite calculateSlaDueDate_run in Hcalc. simpl in Hcalc.
  injection Hcalc as <-.
  rewrite (sla_status_window now _ c Hdue).
  apply eqs_neq in Hopen. rewrite Hopen.
  unfold PRIORITY.all, PRIORITY.LOW, PRIORITY.MEDIUM, PRIORITY.HIGH,
    PRIORITY.CRITICAL in Hprio.
  rewrite !elem_of_cons, elem_of_nil in Hprio.
  unfold Sla.hours, Date.ms_per_hour.
  destruct Hprio as [-> | [-> | [-> | [-> | []]]]]; simpl;
    unfold Spec.sla_hours; simpl.
  all: repeat match goal with
           | |- context [?a <? ?b] => destruct (Z.ltb_spec a b); try lia
           end; done.
Qed.

(** The new case, High, given a due time two hours in. *)
Lemma fresh_due_time_on_track_witness :
  Case.priority Example.new_case ∈ PRIORITY.all
  ∧ Sla.sla_status 7200000
      (Written.edited Example.same_priority 7200000 7200001 Example.new_case)
    = "on_track".
Proof.
  assert (H : Case.priority Example.new_case ∈ PRIORITY.all)
    by (do 2 right; left).
  split; [exact H |].
  apply (fresh_due_time_on_track Example.healthy (Example.store, 0%nat)
           7200000 (7200000 + 24 * 3600000)).
  - exact H.
  - discriminate.
  - reflexivity.
  - reflexivity.
  - reflexivity.
Defined.

(** ** The gates and the error handler *)

(** A gate lets a user through when the role is listed, and answers 403
    naming the roles and the user's role when it is not; either way the
    store is left alone. *)
Lemma requireRole_run (allowed : list string) (user : User.row) (e : env)
    (s : database * nat) :
  Rbac.requireRole allowed user e s
  = if Js.includes allowed (User.role user) then (Continue tt, s)
    else (Finish (Sent 403
                    (AccessDenied ("Required role: " +:+ Js.join allowed " or "
                                   +:+ ". Your role: " +:+ User.role user))),
          s).
Proof.
  unfold Rbac.requireRole. by destruct (Js.includes allowed (User.role user)).
Qed.

(** X23: the gates are nested: whoever passes the admin gate passes the
    manager gate, whoever passes the manager gate passes the analyst gate,
    and a requester passes none of them; no gate touches the store. *)
Theorem gates_nested (user : User.row) (e : env) (s : database * nat) :
  (Gates.requireAdmin user e s = (Continue tt, s) ->
   Rbac.requireManager user e s = (Continue tt, s))
  ∧ (Rbac.requireManager user e s = (Continue tt, s) ->
     Gates.requireAnalyst user e s = (Continue tt, s))
  ∧ (User.role user = "requester" ->
     ∃ message,
       Gates.requireAnalyst user e s
       = (Finish (Sent 403 (AccessDenied message)), s))
  ∧ (Gates.requireAdmin user e s).2 = s
  ∧ (Rbac.requireManager user e s).2 = s
  ∧ (Gates.requireAnalyst user e s).2 = s.
Proof.
  unfold Gates.requireAdmin, Gates.requireAnalyst, Rbac.requireManager.
  rewrite !requireRole_run.
  unfold ROLES.ADMIN, ROLES.MANAGER, ROLES.ANALYST, Js.includes. simpl.
  destruct (Js.eqs (User.role user) "admin") eqn:Ea;
    destruct (Js.eqs (User.role user) "manager") eqn:Em;
    destruct (Js.eqs (User.role user) "analyst") eqn:Ean; simpl;
    repeat split; try done;
    intros Hr; rewrite Hr in *; try discriminate; by eexists.
Qed.

Lemma gates_nested_witness :
  Gates.requireAdmin (User.Row 1 "Ada" "ada@example.org" "admin")
    Example.healthy (Example.store, 0%nat)
  = (Continue tt, (Example.store, 0%nat))
  ∧ Rbac.requireManager (User.Row 1 "Ada" "ada@example.org" "admin")
      Example.healthy (Example.store, 0%nat)
    = (Continue tt, (Example.store, 0%nat)).
Proof.
  split; [reflexivity |].
  apply (gates_nested (User.Row 1 "Ada" "ada@example.org" "admin")
           Example.healthy (Example.store, 0%nat)).
  reflexivity.
Defined.

(** X24: in production the answer to an error does not depend on its
    message unless the error is a ValidationError or brings a status code of
    its own: the text is one of five fixed ones.  A rejection by the store
    for a duplicate (23505) or a missing reference (23503) is answered 409
    and 400. *)
Theorem errorHandler_hides_message (err : ErrorHandler.error) :
  ErrorHandler.name err ≠ "ValidationError" ->
  ErrorHandler.own_status err = None ->
  ErrorHandler.error_text (ErrorHandler.errorHandler true err).2
    ∈ ["Invalid token"; "Token expired"; "Resource already exists";
       "Referenced resource not found"; "Internal server error"]
  ∧ ErrorHandler.error_details (ErrorHandler.errorHandler true err).2 = None
  ∧ (ErrorHandler.name err ∉ ["JsonWebTokenError"; "TokenExpiredError"] ->
     (ErrorHandler.code err = Some "23505" ->
      (ErrorHandler.errorHandler true err).1 = 409)
     ∧ (ErrorHandler.code err = Some "23503" ->
        (ErrorHandler.errorHandler true err).1 = 400)
     ∧ (ErrorHandler.code err ≠ Some "23505" ->
        ErrorHandler.code err ≠ Some "23503" ->
        (ErrorHandler.errorHandler true err).1 = 500)).
Proof.
  intros Hname Hstatus. unfold ErrorHandler.errorHandler.
  apply eqs_neq in Hname. rewrite Hname, Hstatus.
  unfold ErrorHandler.has_code.
  destruct (Js.eqs (ErrorHandler.name err) "JsonWebTokenError") eqn:Ej.
  { simpl. split; [left | split; [done |]].
    apply eqs_eq in Ej. rewrite Ej. intros Hn. exfalso. apply Hn. left. }
  destruct (Js.eqs (ErrorHandler.name err) "TokenExpiredError") eqn:Et.
  { simpl. split; [right; left | split; [done |]].
    apply eqs_eq in Et. rewrite Et. intros Hn. exfalso. apply Hn.
    right; left. }
  destruct (ErrorHandler.code err) as [c |]; simpl.
  - destruct (Js.eqs c "23505") eqn:E1; simpl.
    { apply eqs_eq in E1. subst c. split; [do 2 right; left |].
      split; [done |]. intros _. repeat split; try done. }
    destruct (Js.eqs c "23503") eqn:E2; simpl.
    { apply eqs_eq in E2. subst c. split; [do 3 right; left |].
      split; [done |]. intros _. repeat split; try done. }
    apply eqs_neq in E1, E2. split; [do 4 right; left |]. split; [done |].
    intros _. repeat split; try done; intros [= ->]; done.
  - split; [do 4 right; left |]. split; [done |]. intros _.
    repeat split; done.
Qed.

(** A duplicate key reported by the store. *)
Lemma errorHandler_hides_message_witness :
  ErrorHandler.name
    (ErrorHandler.Error "error" "duplicate key value" None None (Some "23505"))
  ≠ "ValidationError"
  ∧ (ErrorHandler.errorHandler true
       (ErrorHandler.Error "error" "duplicate key value" None None
          (Some "23505"))).1 = 409.
Proof.
  assert (H : ErrorHandler.name
                (ErrorHandler.Error "error" "duplicate key value" None None
                   (Some "23505")) ≠ "ValidationError") by discriminate.
  split; [exact H |].
  destruct (errorHandler_hides_message
              (ErrorHandler.Error "error" "duplicate key value" None None
                 (Some "23505")) H eq_refl) as (_ & _ & Hcodes).
  destruct Hcodes as (Hdup & _).
  - rewrite !not_elem_of_cons. repeat split; try discriminate.
    apply not_elem_of_nil.
  - apply Hdup. reflexivity.
Defined.

(** ** Reading the store *)

(** [ORDER BY] keeps the rows and puts them in order. *)
Section OrderBy.
Context {A : Type} (before : A -> A -> bool).

Lemma insert_by_perm (x : A) (l : list A) :
  Query.insert_by before x l ≡ₚ x :: l.
Proof.
  induction l as [| y l IH]; simpl; [done |].
  destruct (before x y); [done |]. rewrite IH. apply Permutation_swap.
Qed.

Lemma order_by_perm (l : list A) : Query.order_by before l ≡ₚ l.
Proof.
  induction l as [| x l IH]; simpl; [done |].
  fold (Query.order_by before l). by rewrite insert_by_perm, IH.
Qed.

Hypothesis before_total : ∀ x y, before x y = true ∨ before y x = true.
Hypothesis before_trans :
  ∀ x y z, before x y = true -> before y z = true -> before x z = true.

Lemma insert_by_sorted (x : A) (l : list A) :
  Sorted (fun a b => before a b = true) l ->
  Sorted (fun a b => before a b = true) (Query.insert_by before x l).
Proof.
  induction l as [| y l IH]; simpl; intros Hsorted.
  - by repeat constructor.
  - destruct (before x y) eqn:Hxy.
    + constructor; [done | by constructor].
    + apply Sorted_inv in Hsorted as [Hl Hhd]. constructor; [by apply IH |].
      assert (Hyx : before y x = true).
      { destruct (before_total x y); [congruence | done]. }
      destruct l as [| z l]; simpl; [by constructor |].
      destruct (before x z); constructor; [done |].
      by apply HdRel_inv in Hhd.
Qed.

Lemma order_by_sorted (l : list A) :
  StronglySorted (fun a b => before a b = true) (Query.order_by before l).
Proof.
  apply Sorted_StronglySorted.
  - intros x y z. apply before_trans.
  - induction l as [| x l IH]; simpl; [constructor |].
    by apply insert_by_sorted.
Qed.

End OrderBy.

Lemma StronglySorted_weaken {A : Type} (R S : A -> A -> Prop) (l : list A) :
  (∀ x y, R x y -> S x y) -> StronglySorted R l -> StronglySorted S l.
Proof.
  intros HRS. induction 1 as [| x l Hl IH Hx]; constructor; [done |].
  eapply Forall_impl; [exact Hx | apply HRS].
Qed.

Lemma omap_length_le {A B : Type} (f : A -> option B) (l : list A) :
  (length (omap f l) <= length l)%nat.
Proof.
  induction l as [| x l IH]; simpl; [lia |].
  fold (omap f l). destruct (f x); simpl; lia.
Qed.

Lemma newer_first_total (r1 r2 : AuditLedger.trail_row) :
  AuditLedger.newer_first r1 r2 = true ∨ AuditLedger.newer_first r2 r1 = true.
Proof. unfold AuditLedger.newer_first. rewrite !Z.leb_le. lia. Qed.

Lemma newer_first_trans (r1 r2 r3 : AuditLedger.trail_row) :
  AuditLedger.newer_first r1 r2 = true ->
  AuditLedger.newer_first r2 r3 = true ->
  AuditLedger.newer_first r1 r3 = true.
Proof. unfold AuditLedger.newer_first. rewrite !Z.leb_le. lia. Qed.

(** The rows that join with the entries of a case. *)
Lemma elem_of_joined (id : Z) (db : database) (r : AuditLedger.trail_row) :
  r ∈ omap (AuditLedger.joined id db) (case_audit_log db)
  <-> ∃ a u,
        a ∈ case_audit_log db ∧ Audit.case_id a = id
        ∧ users db !! Audit.performed_by a = Some u
        ∧ r = AuditLedger.TrailRow a (User.name u) (User.email u).
Proof.
  rewrite list_elem_of_omap. unfold AuditLedger.joined. split.
  - intros (a & Hin & Hj).
    destruct (Z.eqb_spec (Audit.case_id a) id) as [Hid |]; [| done].
    destruct (users db !! Audit.performed_by a) as [u |] eqn:Hu; [| done].
    injection Hj as <-. by exists a, u.
  - intros (a & u & Hin & Hid & Hu & ->). exists a. split; [done |].
    by rewrite Hid, Z.eqb_refl, Hu.
Qed.

(** X25: the audit route gives a manager or an admin the trail of the case:
    exactly the entries of that case whose performer is a user, each with
    the performer's name and email, newest first, and the store is left as
    it was; anyone else is answered 403 and given nothing. *)
Theorem get_audit_trail (e : env) (user : User.row) (id : Z) (db : database) :
  faulty e 0 = false ->
  (User.role user ∈ ["manager"; "admin"] ->
   ∃ trail,
     Query.answer (CasesReads.get_audit user id) e db = (Continue trail, db)
     ∧ (∀ r, r ∈ trail
             <-> ∃ a u,
                   a ∈ case_audit_log db ∧ Audit.case_id a = id
                   ∧ users db !! Audit.performed_by a = Some u
                   ∧ r = AuditLedger.TrailRow a (User.name u) (User.email u))
     ∧ StronglySorted
         (fun r1 r2 => Audit.timestamp (AuditLedger.entry r2)
                       <= Audit.timestamp (AuditLedger.entry r1)) trail
     ∧ (length trail <= length (case_audit_log db))%nat)
  ∧ (User.role user ∉ ["manager"; "admin"] ->
     ∃ message,
       Query.answer (CasesReads.get_audit user id) e db
       = (Finish (Sent 403 (AccessDenied message)), db)).
Proof.
  intros F0.
  unfold Query.answer, CasesReads.get_audit, Rbac.requireManager,
    AuditLedger.getAuditTrail, mbind, handler_bind, mret, handler_ret.
  rewrite requireRole_run. unfold ROLES.MANAGER, ROLES.ADMIN. split.
  - intros Hrole. apply includes_elem_of in Hrole. rewrite Hrole.
    unfold query. rewrite F0. eexists. split; [reflexivity |].
    set (rows := omap (AuditLedger.joined id db) (case_audit_log db)).
    pose proof (order_by_perm AuditLedger.newer_first rows) as Hperm.
    split; [| split].
    + intros r. rewrite Hperm. apply elem_of_joined.
    + eapply StronglySorted_weaken;
        [| apply order_by_sorted;
           [apply newer_first_total | apply newer_first_trans]].
      intros r1 r2. unfold AuditLedger.newer_first. by rewrite Z.leb_le.
    + rewrite Hperm. apply omap_length_le.
  - intros Hrole. apply includes_not_elem_of in Hrole. rewrite Hrole.
    by eexists.
Qed.

Lemma get_audit_trail_witness :
  faulty Example.healthy 0 = false
  ∧ ∃ trail,
      Query.answer (CasesReads.get_audit Example.manager 2) Example.healthy
        History.store
      = (Continue trail, History.store)
      ∧ length trail = 3%nat.
Proof.
  split; [reflexivity |].
  destruct (get_audit_trail Example.healthy Example.manager 2 History.store
              eq_refl) as [Hmanager _].
  destruct Hmanager as (trail & Hrun & _); [by left |].
  exists trail. split; [exact Hrun |].
  vm_compute in Hrun. by injection Hrun as <-.
Defined.

(** X26: the detail route answers 404 for a case that is not stored and
    otherwise shows the stored row; a transition it does not offer is
    refused by the status route whatever happens, and one it offers, the
    requirements met and the statements going through, is carried out. *)
Theorem get_case_offers_what_status_accepts (e : env) (user : User.row)
    (id : Z) (db : database) :
  faulty e 0 = false ->
  (cases db !! id = None ->
   Query.answer (CasesReads.get_case user id) e db
   = (Finish (Sent 404 (ErrorMessage "Case not found")), db))
  ∧ (∀ c, cases db !! id = Some c ->
       ∃ view,
         Query.answer (CasesReads.get_case user id) e db = (Continue view, db)
         ∧ CasesReads.row (CasesReads.details view) = c
         ∧ (∀ to e',
              to ∉ CasesReads.availableTransitions view ->
              Spec.succeeded
                (run (CasesRoutes.put_status user id (Some to)) e' db).1
              = false)
         ∧ (∀ to e',
              to ∈ CasesReads.availableTransitions view ->
              WorkflowService.req_valid
                (WorkflowService.validateTransitionRequirements c to) = true ->
              faulty e' 0 = false -> faulty e' 1 = false ->
              faulty e' 2 = false ->
              Spec.succeeded
                (run (CasesRoutes.put_status user id (Some to)) e' db).1
              = true)).
Proof.
  intros F0.
  unfold Query.answer, CasesReads.get_case, CasesReads.select_details, mbind,
    handler_bind, mret, handler_ret, query, send.
  rewrite F0. split.
  - by intros ->.
  - intros c Hc. rewrite Hc. eexists. split; [reflexivity |].
    split; [reflexivity |].
    cbn [CasesReads.availableTransitions CasesReads.details CasesReads.row].
    split.
    + intros to e' Hnot.
      destruct (put_status_effect e' user id (Some to) db)
        as [[_ Hfail] | (c' & target & [= <-] & _ & Hc' & Hv & _)];
        [exact Hfail |].
      exfalso. apply Hnot. rewrite Hc in Hc'. injection Hc' as <-.
      apply available_lookup. by apply canTransition_valid.
    + intros to e' Hin Hr G0 G1 G2.
      apply available_lookup, canTransition_valid in Hin.
      assert (Hto : to ∈ STATUS.all).
      { pose proof Hin as Hal. apply canTransition_allowed in Hal.
        rewrite !elem_of_cons, elem_of_nil in Hal.
        unfold STATUS.all, STATUS.CREATED, STATUS.ASSIGNED,
          STATUS.IN_PROGRESS, STATUS.UNDER_REVIEW, STATUS.CLOSED.
        rewrite !elem_of_cons.
        destruct Hal as [H | [H | [H | [H | [H | [H | [H | [H | []]]]]]]]];
          injection H as _ -> _; tauto. }
      by rewrite (put_status_run e' user id to c db Hto Hc Hin Hr G0 G1 G2).
Qed.

Lemma get_case_offers_what_status_accepts_witness :
  faulty Example.healthy 0 = false
  ∧ Spec.succeeded
      (run (CasesRoutes.put_status Example.manager 2 (Some "Closed"))
         Example.healthy Example.store).1 = true.
Proof.
  split; [reflexivity |].
  destruct (get_case_offers_what_status_accepts Example.healthy
              Example.manager 2 Example.store eq_refl) as [_ Hstored].
  destruct (Hstored Example.review_case eq_refl)
    as (view & Hrun & _ & _ & Hoffered).
  apply Hoffered; try reflexivity.
  vm_compute in Hrun. injection Hrun as <-. simpl. left.
Defined.

(** What a write that appends to the log does to the rows of a trail. *)
Lemma trail_rows_appended (j : Z) (db db' : database)
    (entries : list Audit.row) :
  users db' = users db ->
  case_audit_log db' = case_audit_log db ++ entries ->
  omap (AuditLedger.joined j db') (case_audit_log db')
  = omap (AuditLedger.joined j db) (case_audit_log db)
    ++ omap (AuditLedger.joined j db) entries.
Proof.
  intros Hu ->. rewrite omap_app. unfold AuditLedger.joined. by rewrite Hu.
Qed.

Lemma other_case_joins_nothing (j id : Z) (db : database)
    (entries : list Audit.row) :
  Forall (fun a => Audit.case_id a = id) entries -> j <> id ->
  omap (AuditLedger.joined j db) entries = [].
Proof.
  intros Hall Hj. induction Hall as [| a entries Ha _ IH]; simpl; [done |].
  fold (omap (AuditLedger.joined j db) entries). rewrite IH.
  unfold AuditLedger.joined. rewrite Ha.
  by destruct (Z.eqb_spec id j) as [-> |].
Qed.

Lemma getAuditTrail_run (j : Z) (e : env) (db : database) :
  faulty e 0 = false ->
  Query.answer (AuditLedger.getAuditTrail j) e db
  = (Continue (Query.order_by AuditLedger.newer_first
                 (omap (AuditLedger.joined j db) (case_audit_log db))), db).
Proof.
  intros F0. unfold Query.answer, AuditLedger.getAuditTrail, query.
  by rewrite F0.
Qed.

(** X27: a request about one case never changes the trail of another: after
    any of the three writing routes, whatever the store rejected, the trail
    of every other case holds the same rows as before. *)
Theorem writing_routes_keep_other_trails (e e' : env) (user : User.row)
    (id j : Z) (db : database) :
  j <> id -> faulty e' 0 = false ->
  ∃ before,
    Query.answer (AuditLedger.getAuditTrail j) e' db = (Continue before, db)
    ∧ (∀ out,
         (∃ status, out = run (CasesRoutes.put_status user id status) e db)
         ∨ (∃ assigneeId,
              out = run (CasesRoutes.put_assign user id assigneeId) e db)
         ∨ (∃ body, out = run (CasesRoutes.put_case user id body) e db) ->
         ∃ after,
           Query.answer (AuditLedger.getAuditTrail j) e' out.2
           = (Continue after, out.2)
           ∧ after ≡ₚ before).
Proof.
  intros Hj F0. eexists. split; [by apply getAuditTrail_run |].
  intros out Hout. eexists. split; [by apply getAuditTrail_run |].
  assert (Hgrows : ∃ entries,
            users out.2 = users db
            ∧ case_audit_log out.2 = case_audit_log db ++ entries
            ∧ Forall (fun a => Audit.case_id a = id) entries).
  { assert (Hsame : out.2 = db -> ∃ entries,
              users out.2 = users db
              ∧ case_audit_log out.2 = case_audit_log db ++ entries
              ∧ Forall (fun a => Audit.case_id a = id) entries).
    { intros ->. exists []. by rewrite app_nil_r. }
    assert (Hkept : users out.2 = users db ->
              case_audit_log out.2 = case_audit_log db ->
              ∃ entries,
                users out.2 = users db
                ∧ case_audit_log out.2 = case_audit_log db ++ entries
                ∧ Forall (fun a => Audit.case_id a = id) entries).
    { intros Hu Hlog. exists []. by rewrite app_nil_r. }
    destruct Hout as [[status ->] | [[assigneeId ->] | [body ->]]].
    - destruct (put_status_effect e user id status db)
        as [[Hdb _] | (c & target & _ & _ & _ & _ & _ & _ & _ & Hu & _ & Hlog)];
        [by apply Hsame |].
      destruct Hlog as [(_ & _ & Hlog) | (_ & _ & Hlog)];
        [by apply Hkept |].
      eexists. split; [exact Hu |]. split; [exact Hlog |].
      by repeat constructor.
    - destruct (put_assign_effect e user id assigneeId db)
        as [[Hdb _] | (c & a & asg & _ & _ & _ & _ & _ & _ & _ & _ & Hu & _
                       & Hlog)]; [by apply Hsame |].
      destruct Hlog as [(_ & _ & Hlog) | [(_ & _ & _ & _ & Hlog)
                                         | (_ & _ & _ & Hlog)]];
        [by apply Hkept | |].
      + eexists. split; [exact Hu |]. split; [exact Hlog |].
        by repeat constructor.
      + eexists. split; [exact Hu |]. split; [exact Hlog |].
        destruct (Js.eqs (Case.status c) "Created"); by repeat constructor.
    - destruct (put_case_effect e user id body db)
        as [[Hdb _] | (c & _ & _ & _ & _ & _ & _ & Hu & _ & Hlog)];
        [by apply Hsame |].
      destruct Hlog as [(_ & _ & Hlog) | (_ & _ & Hlog)];
        [by apply Hkept |].
      eexists. split; [exact Hu |]. split; [exact Hlog |].
      by repeat constructor. }
  destruct Hgrows as (entries & Hu & Hlog & Hall).
  rewrite (trail_rows_appended j db out.2 entries Hu Hlog),
    (other_case_joins_nothing j id db entries Hall Hj), app_nil_r.
  done.
Qed.

Lemma writing_routes_keep_other_trails_witness :
  2 <> 1 ∧ faulty Example.healthy 0 = false
  ∧ ∃ after,
      Query.answer (AuditLedger.getAuditTrail 2) Example.healthy
        (run (CasesRoutes.put_assign Example.manager 1 (Some 3))
           Example.healthy History.store).2
      = (Continue after,
         (run (CasesRoutes.put_assign Example.manager 1 (Some 3))
            Example.healthy History.store).2)
      ∧ length after = 3%nat.
Proof.
  split; [lia |]. split; [reflexivity |].
  destruct (writing_routes_keep_other_trails Example.healthy Example.healthy
              Example.manager 1 2 History.store ltac:(lia) eq_refl)
    as (before & Hbefore & Hafter).
  destruct (Hafter (run (CasesRoutes.put_assign Example.manager 1 (Some 3))
                      Example.healthy History.store))
    as (after & Hrun & Hperm); [right; left; by eexists |].
  exists after. split; [exact Hrun |].
  rewrite Hperm. vm_compute in Hbefore. by injection Hbefore as <-.
Defined.

(** X28: a successful write shows in the trail of its case when the user is
    a stored one: a status change adds exactly the row of the change, with
    the previous and the new status and the user's name and email; an edit
    adds one row, an assignment one, or two for a case that was Created. *)
Theorem successful_writes_join_trail (e e' : env) (user : User.row) (id : Z)
    (db : database) :
  users db !! User.id user = Some user -> faulty e' 0 = false ->
  ∃ before,
    Query.answer (AuditLedger.getAuditTrail id) e' db = (Continue before, db)
    ∧ (∀ status,
         let out := run (CasesRoutes.put_status user id status) e db in
         Spec.succeeded out.1 = true ->
         ∃ after c target,
           Query.answer (AuditLedger.getAuditTrail id) e' out.2
           = (Continue after, out.2)
           ∧ status = Some target ∧ cases db !! id = Some c
           ∧ after ≡ₚ
               AuditLedger.TrailRow
                 (Spec.status_entry id (Case.status c) target (User.id user)
                    (sql_now e 2))
                 (User.name user) (User.email user) :: before)
    ∧ (∀ body,
         let out := run (CasesRoutes.put_case user id body) e db in
         Spec.succeeded out.1 = true ->
         ∃ after,
           Query.answer (AuditLedger.getAuditTrail id) e' out.2
           = (Continue after, out.2)
           ∧ length after = S (length before))
    ∧ (∀ assigneeId,
         let out := run (CasesRoutes.put_assign user id assigneeId) e db in
         Spec.succeeded out.1 = true ->
         ∃ after c,
           Query.answer (AuditLedger.getAuditTrail id) e' out.2
           = (Continue after, out.2)
           ∧ cases db !! id = Some c
           ∧ length after
             = if Js.eqs (Case.status c) "Created"
               then S (S (length before)) else S (length before)).
Proof.
  intros Huser F0. eexists. split; [by apply getAuditTrail_run |].
  assert (Hjoin : ∀ a, Audit.case_id a = id ->
            Audit.performed_by a = User.id user ->
            AuditLedger.joined id db a
            = Some (AuditLedger.TrailRow a (User.name user)
                      (User.email user))).
  { intros a Ha Hp. unfold AuditLedger.joined.
    by rewrite Ha, Z.eqb_refl, Hp, Huser. }
  split; [| split].
  - intros status out Hok. subst out.
    destruct (put_status_effect e user id status db)
      as [[_ Hfail] | (c & target & -> & _ & Hc & _ & _ & _ & _ & Hu & _
                       & Hlog)]; [congruence |].
    destruct Hlog as [(_ & Hnext & _) | (_ & _ & Hlog)];
      [rewrite Hnext in Hok; discriminate |].
    eexists _, c, target. split; [by apply getAuditTrail_run |].
    do 2 (split; [done |]).
    rewrite order_by_perm, (trail_rows_appended id db _ _ Hu Hlog).
    simpl. rewrite Hjoin by done. rewrite order_by_perm.
    by rewrite (comm (++)).
  - intros body out Hok. subst out.
    destruct (put_case_effect e user id body db)
      as [[_ Hfail] | (c & _ & _ & _ & _ & _ & _ & Hu & _ & Hlog)];
      [congruence |].
    destruct Hlog as [(_ & Hnext & _) | (_ & _ & Hlog)];
      [rewrite Hnext in Hok; discriminate |].
    eexists. split; [by apply getAuditTrail_run |].
    rewrite !order_by_perm, (trail_rows_appended id db _ _ Hu Hlog).
    simpl. rewrite Hjoin by done. rewrite length_app. simpl. lia.
  - intros assigneeId out Hok. subst out.
    destruct (put_assign_effect e user id assigneeId db)
      as [[_ Hfail] | (c & a & asg & _ & _ & Hc & _ & _ & _ & _ & _ & Hu & _
                       & Hlog)]; [congruence |].
    destruct Hlog as [(_ & Hnext & _) | [(_ & _ & _ & Hnext & _)
                                        | (_ & _ & _ & Hlog)]];
      [rewrite Hnext in Hok; discriminate
      | rewrite Hnext in Hok; discriminate |].
    eexists _, c. split; [by apply getAuditTrail_run |]. split; [done |].
    rewrite !order_by_perm, (trail_rows_appended id db _ _ Hu Hlog).
    rewrite length_app.
    destruct (Js.eqs (Case.status c) "Created"); simpl;
      rewrite !Hjoin by done; simpl; lia.
Qed.

Lemma successful_writes_join_trail_witness :
  users History.store !! User.id Example.manager = Some Example.manager
  ∧ faulty Example.healthy 0 = false
  ∧ ∃ after,
      Query.answer (AuditLedger.getAuditTrail 1) Example.healthy
        (run (CasesRoutes.put_assign Example.manager 1 (Some 3))
           Example.healthy History.store).2
      = (Continue after,
         (run (CasesRoutes.put_assign Example.manager 1 (Some 3))
            Example.healthy History.store).2)
      ∧ length after = 2%nat.
Proof.
  split; [reflexivity |]. split; [reflexivity |].
  destruct (successful_writes_join_trail Example.healthy Example.healthy
              Example.manager 1 History.store eq_refl eq_refl)
    as (before & Hbefore & _ & _ & Hassign).
  destruct (Hassign (Some 3) eq_refl) as (after & c & Hrun & Hc & Hlen).
  exists after. split; [exact Hrun |].
  vm_compute in Hc. injection Hc as <-.
  vm_compute in Hbefore. injection Hbefore as <-. exact Hlen.
Defined.

(** ** The list of cases *)

Lemma StronglySorted_sublist {A : Type} (R : A -> A -> Prop) (l1 l2 : list A) :
  l1 `sublist_of` l2 -> StronglySorted R l2 -> StronglySorted R l1.
Proof.
  induction 1 as [| x l1 l2 Hsub IH | x l1 l2 Hsub IH]; intros Hsorted.
  - constructor.
  - apply StronglySorted_inv in Hsorted as [Hl Hx]. constructor; [by apply IH |].
    rewrite Forall_forall in Hx |- *. intros y Hy. apply Hx.
    by eapply elem_of_sublist.
  - apply StronglySorted_inv in Hsorted as [Hl _]. by apply IH.
Qed.

Lemma elem_of_case_rows (db : database) (c : Case.row) :
  c ∈ Query.case_rows db <-> ∃ j, cases db !! j = Some c.
Proof.
  unfold Query.case_rows. rewrite list_elem_of_fmap. split.
  - intros ([j c'] & -> & Hin). exists j. by apply elem_of_map_to_list.
  - intros [j Hj]. exists (j, c). split; [done |].
    by apply elem_of_map_to_list.
Qed.

Lemma filter_on_asked (wanted : option string) (actual : string) :
  CasesReads.filter_on wanted actual = true
  <-> Visibility.asked_for wanted actual.
Proof.
  unfold CasesReads.filter_on, Visibility.asked_for.
  destruct wanted as [s |]; [| split; [intros _ s' [=] | done]].
  destruct (Js.eqs s "") eqn:Hempty; simpl.
  - apply eqs_eq in Hempty. split; [| done]. intros _ s' [= <-] Hs. done.
  - apply eqs_neq in Hempty. split.
    + intros Heq s' [= <-] _. by apply eqs_eq in Heq.
    + intros Hall. apply eqs_eq. by apply Hall.
Qed.

Lemma role_filter_may_see (user : User.row) (c : Case.row) :
  CasesReads.role_filter user c = true <-> Visibility.may_see user c.
Proof.
  unfold CasesReads.role_filter, Visibility.may_see, ROLES.REQUESTER,
    ROLES.ANALYST, CasesRoutes.is_user.
  destruct (Js.eqs (User.role user) "requester") eqn:Hreq.
  - apply eqs_eq in Hreq. rewrite Hreq, Z.eqb_eq. split.
    + intros Hc. split; [done | discriminate].
    + intros [Hc _]. by apply Hc.
  - apply eqs_neq in Hreq.
    destruct (Js.eqs (User.role user) "analyst") eqn:Han.
    + apply eqs_eq in Han. rewrite orb_true_iff, Z.eqb_eq. split.
      * intros Hc. split; [done |]. intros _.
        destruct Hc as [Hc | Hc]; [left | by right].
        destruct (Case.assigned_to c) as [a |]; [| done].
        apply Z.eqb_eq in Hc. by subst.
      * intros [_ Hc]. destruct (Hc Han) as [-> | Hc']; [left | by right].
        apply Z.eqb_refl.
    + apply eqs_neq in Han. split; [| done]. intros _. by split.
Qed.

Lemma where_clause_selected (user : User.row) (q : CasesReads.list_query)
    (c : Case.row) :
  CasesReads.where_clause user q c = true <-> Visibility.selected user q c.
Proof.
  unfold CasesReads.where_clause, Visibility.selected.
  by rewrite !andb_true_iff, role_filter_may_see, !filter_on_asked,
    <- !(assoc and).
Qed.

Lemma listed_before_ranked (c1 c2 : Case.row) :
  CasesReads.listed_before c1 c2 = true <-> Visibility.ranked_before c1 c2.
Proof.
  unfold CasesReads.listed_before, Visibility.ranked_before.
  by rewrite orb_true_iff, andb_true_iff, Z.ltb_lt, Z.eqb_eq, Z.leb_le.
Qed.

Lemma listed_before_total (c1 c2 : Case.row) :
  CasesReads.listed_before c1 c2 = true
  ∨ CasesReads.listed_before c2 c1 = true.
Proof.
  rewrite !listed_before_ranked. unfold Visibility.ranked_before. lia.
Qed.

Lemma listed_before_trans (c1 c2 c3 : Case.row) :
  CasesReads.listed_before c1 c2 = true ->
  CasesReads.listed_before c2 c3 = true ->
  CasesReads.listed_before c1 c3 = true.
Proof.
  rewrite !listed_before_ranked. unfold Visibility.ranked_before. lia.
Qed.

(** The list, when its two statements go through and the page and the limit
    are ones the store accepts. *)
Lemma get_cases_run (e : env) (user : User.row) (q : CasesReads.list_query)
    (db : database) :
  let limit := default 20 (CasesReads.limit q) in
  let page := default 1 (CasesReads.page q) in
  let matching := List.filter (CasesReads.where_clause user q)
                    (Query.case_rows db) in
  faulty e 0 = false -> faulty e 1 = false -> 0 <= limit -> 1 <= page ->
  ∃ l,
    Query.answer (CasesReads.get_cases user q) e db = (Continue l, db)
    ∧ CasesReads.listed_row <$> CasesReads.listed_cases l
      = take (Z.to_nat limit)
          (drop (Z.to_nat ((page - 1) * limit))
             (Query.order_by CasesReads.listed_before matching))
    ∧ CasesReads.pages l
      = CasesReads.Pagination page limit (Z.of_nat (length matching))
          (CasesReads.ceil_div (Z.of_nat (length matching)) limit).
Proof.
  intros limit page matching F0 F1 Hlimit Hpage.
  unfold Query.answer, CasesReads.get_cases, CasesReads.select_page, mbind,
    handler_bind, mret, handler_ret, query.
  rewrite F0. fold limit page matching. rewrite F1. simpl.
  replace (limit <? 0) with false by (symmetry; apply Z.ltb_ge; lia).
  replace ((page - 1) * limit <? 0) with false
    by (symmetry; apply Z.ltb_ge; nia).
  eexists. split; [reflexivity |]. split; [| reflexivity].
  cbn [CasesReads.listed_cases]. rewrite <- list_fmap_compose.
  apply list_fmap_id.
Qed.

(** X29: the list shows only stored cases the requester may see and that
    meet the filters given: a requester sees cases they created, an analyst
    cases assigned to or created by them; and when the matching cases fit on
    the first page, every one of them is listed. *)
Theorem get_cases_lists_visible (e : env) (user : User.row)
    (q : CasesReads.list_query) (db : database) :
  faulty e 0 = false -> faulty e 1 = false ->
  0 <= default 20 (CasesReads.limit q) ->
  1 <= default 1 (CasesReads.page q) ->
  ∃ l,
    Query.answer (CasesReads.get_cases user q) e db = (Continue l, db)
    ∧ (∀ r, r ∈ CasesReads.listed_cases l ->
         (∃ j, cases db !! j = Some (CasesReads.listed_row r))
         ∧ Visibility.selected user q (CasesReads.listed_row r))
    ∧ (default 1 (CasesReads.page q) = 1 ->
       CasesReads.total (CasesReads.pages l)
       <= default 20 (CasesReads.limit q) ->
       ∀ j c, cases db !! j = Some c -> Visibility.selected user q c ->
              c ∈ CasesReads.listed_row <$> CasesReads.listed_cases l).
Proof.
  intros F0 F1 Hlimit Hpage.
  destruct (get_cases_run e user q db F0 F1 Hlimit Hpage)
    as (l & Hrun & Hrows & Hpages).
  exists l. split; [exact Hrun |]. split.
  - intros r Hr.
    assert (Hin : CasesReads.listed_row r
                  ∈ CasesReads.listed_row <$> CasesReads.listed_cases l).
    { apply list_elem_of_fmap. by exists r. }
    rewrite Hrows in Hin.
    eapply elem_of_sublist in Hin; [| apply sublist_take].
    eapply elem_of_sublist in Hin; [| apply sublist_drop].
    rewrite order_by_perm in Hin.
    apply list_elem_of_In, List.filter_In in Hin as [Hstored Hwhere].
    split; [by apply elem_of_case_rows, list_elem_of_In |].
    by apply where_clause_selected.
  - intros Hfirst Htotal j c Hc Hsel. rewrite Hrows, Hfirst.
    rewrite Hpages in Htotal. cbn [CasesReads.total] in Htotal.
    change (Z.to_nat ((1 - 1) * _)) with 0%nat. rewrite drop_0, take_ge.
    + rewrite order_by_perm. apply list_elem_of_In, List.filter_In. split.
      * apply list_elem_of_In, elem_of_case_rows. by exists j.
      * by apply where_clause_selected.
    + rewrite order_by_perm. lia.
Qed.

Lemma get_cases_lists_visible_witness :
  faulty Example.healthy 0 = false ∧ faulty Example.healthy 1 = false
  ∧ 0 <= default 20 (CasesReads.limit History.high_first_page)
  ∧ 1 <= default 1 (CasesReads.page History.high_first_page)
  ∧ Example.new_case
    ∈ CasesReads.listed_row
      <$> match Query.answer
                  (CasesReads.get_cases Example.manager History.high_first_page)
                  Example.healthy History.store with
          | (Continue l, _) => CasesReads.listed_cases l
          | _ => []
          end.
Proof.
  split; [reflexivity |]. split; [reflexivity |].
  split; [simpl; lia |]. split; [simpl; lia |].
  destruct (get_cases_lists_visible Example.healthy Example.manager
              History.high_first_page History.store eq_refl eq_refl)
    as (l & Hrun & _ & Hall); [simpl; lia | simpl; lia |].
  rewrite Hrun. apply (Hall eq_refl) with (j := 1).
  - vm_compute in Hrun. injection Hrun as <-. simpl. lia.
  - reflexivity.
  - split; [split; intros H; discriminate H |].
    split; [intros s H; discriminate H |].
    split; [intros s [= <-] _; reflexivity | intros s H; discriminate H].
Defined.

(** X30: a page holds no more rows than the limit and than there are
    matching cases, in the order of the priority rank and newest first
    within a rank; for a positive limit the number of pages is the least
    that holds all matching cases, and a page past the last is empty. *)
Theorem get_cases_pages (e : env) (user : User.row)
    (q : CasesReads.list_query) (db : database) :
  faulty e 0 = false -> faulty e 1 = false ->
  0 <= default 20 (CasesReads.limit q) ->
  1 <= default 1 (CasesReads.page q) ->
  ∃ l,
    Query.answer (CasesReads.get_cases user q) e db = (Continue l, db)
    ∧ Z.of_nat (length (CasesReads.listed_cases l))
      <= default 20 (CasesReads.limit q)
    ∧ Z.of_nat (length (CasesReads.listed_cases l))
      <= CasesReads.total (CasesReads.pages l)
    ∧ StronglySorted Visibility.ranked_before
        (CasesReads.listed_row <$> CasesReads.listed_cases l)
    ∧ (0 < default 20 (CasesReads.limit q) ->
       ∃ n,
         CasesReads.totalPages (CasesReads.pages l) = Some n
         ∧ (n - 1) * default 20 (CasesReads.limit q)
           < CasesReads.total (CasesReads.pages l)
           <= n * default 20 (CasesReads.limit q)
         ∧ (n < default 1 (CasesReads.page q) ->
            CasesReads.listed_cases l = [])).
Proof.
  intros F0 F1 Hlimit Hpage.
  destruct (get_cases_run e user q db F0 F1 Hlimit Hpage)
    as (l & Hrun & Hrows & Hpages).
  set (limit := default 20 (CasesReads.limit q)) in *.
  set (page := default 1 (CasesReads.page q)) in *.
  set (matching := List.filter (CasesReads.where_clause user q)
                     (Query.case_rows db)) in *.
  set (sorted := Query.order_by CasesReads.listed_before matching) in *.
  assert (Hlen : length sorted = length matching).
  { unfold sorted. by rewrite order_by_perm. }
  assert (Hcount : length (CasesReads.listed_cases l)
                   = length (take (Z.to_nat limit)
                               (drop (Z.to_nat ((page - 1) * limit)) sorted))).
  { by rewrite <- Hrows, length_fmap. }
  exists l. split; [exact Hrun |]. rewrite Hpages. simpl.
  split; [| split; [| split]].
  - rewrite Hcount, length_take. lia.
  - rewrite Hcount, length_take, length_drop. lia.
  - rewrite Hrows.
    eapply StronglySorted_sublist; [apply sublist_take |].
    eapply StronglySorted_sublist; [apply sublist_drop |].
    eapply StronglySorted_weaken;
      [| apply order_by_sorted;
         [apply listed_before_total | apply listed_before_trans]].
    intros c1 c2. apply listed_before_ranked.
  - intros Hpos. unfold CasesReads.ceil_div.
    replace (limit =? 0) with false by (symmetry; apply Z.eqb_neq; lia).
    eexists. split; [reflexivity |].
    pose proof (Z.div_mod (- Z.of_nat (length matching)) limit) as Hdiv.
    pose proof (Z.mod_pos_bound (- Z.of_nat (length matching)) limit Hpos)
      as Hmod.
    split; [nia |]. intros Hpast.
    apply length_zero_iff_nil. rewrite Hcount, length_take, length_drop.
    nia.
Qed.

Lemma get_cases_pages_witness :
  faulty Example.healthy 0 = false ∧ faulty Example.healthy 1 = false
  ∧ 0 <= default 20 (CasesReads.limit History.high_first_page)
  ∧ 1 <= default 1 (CasesReads.page History.high_first_page)
  ∧ ∃ l,
      Query.answer
        (CasesReads.get_cases Example.manager History.high_first_page)
        Example.healthy History.store
      = (Continue l, History.store)
      ∧ CasesReads.totalPages (CasesReads.pages l) = Some 1.
Proof.
  split; [reflexivity |]. split; [reflexivity |].
  split; [simpl; lia |]. split; [simpl; lia |].
  destruct (get_cases_pages Example.healthy Example.manager
              History.high_first_page History.store eq_refl eq_refl)
    as (l & Hrun & _); [simpl; lia | simpl; lia |].
  exists l. split; [exact Hrun |].
  vm_compute in Hrun. by injection Hrun as <-.
Defined.
